(** * watch: periodic command execution with change detection

    A shallow embedding of [watch.go] (the polling loop, [WatchCommand],
    [WatchPaths], the helpers) and of the screen backends, together with
    the parts of the Go standard library the program leans on
    ([hash/adler32], [strings.Fields], [strings.TrimSpace],
    [time.Duration.String], [filepath.Walk]).

    Layout: definitions first (library models, then the program), then
    the lemmas and the theorems about the program. *)

From Stdlib Require Import ZArith List String Ascii Lia Bool DecimalString.
From Stdlib Require Import Sorting.Sorted Sorting.Permutation.
From Stdlib.Strings Require Import Byte.
Import ListNotations.
Open Scope string_scope.
Open Scope Z_scope.
Set Warnings "-register-all".

(* ================================================================== *)
(** * Part I: definitions *)
(* ================================================================== *)

(** ** hash/adler32

    Go's implementation: the digest is a [uint32] holding [s2<<16 | s1];
    [update] consumes the input in chunks of at most [nmax] bytes, adds
    with 32-bit wrap-around inside a chunk and reduces modulo [mod] only
    at the end of each chunk.  (The four-bytes-at-a-time inner loop of
    the library performs the same additions in the same order as the
    trailing byte loop; both are the fold below.) *)
Module Adler32.

(** [mod] in the library: the largest prime below 65536. *)
Definition mod_ : Z := 65521.

(** The largest n with 255*n*(n+1)/2 + (n+1)*(mod-1) <= 2^32-1. *)
Definition nmax : nat := Z.to_nat 5552.

Definition digest : Type := Z.

(** uint32 arithmetic. *)
Definition u32 (z : Z) : Z := z mod 2 ^ 32.

Definition byteZ (b : byte) : Z := Z.of_N (Byte.to_N b).

(** [s1 += uint32(x); s2 += s1] *)
Definition addByte (s : Z * Z) (x : byte) : Z * Z :=
  let s1 := u32 (fst s + byteZ x) in
  (s1, u32 (snd s + s1)).

(** The outer loop [for len(p) > 0 { ... }].  Every turn consumes at
    least one byte, so [length p] turns of fuel are enough. *)
Fixpoint updateLoop (fuel : nat) (s1 s2 : Z) (p : list byte) : Z * Z :=
  match p with
  | [] => (s1, s2)
  | _ :: _ =>
      match fuel with
      | O => (s1, s2)
      | S fuel' =>
          let q := skipn nmax p in
          let p := firstn nmax p in
          let s := fold_left addByte p (s1, s2) in
          updateLoop fuel' (fst s mod mod_) (snd s mod mod_) q
      end
  end.

(** [digest(s2<<16 | s1)] *)
Definition pack (s1 s2 : Z) : digest := Z.lor (u32 (Z.shiftl s2 16)) s1.

Definition update (d : digest) (p : list byte) : digest :=
  let s1 := Z.land d 65535 in
  let s2 := Z.shiftr d 16 in
  let s := updateLoop (List.length p) s1 s2 p in
  pack (fst s) (snd s).

Definition Reset : digest := 1.
Definition New : digest := Reset.
Definition Write (d : digest) (p : list byte) : digest := update d p.
Definition Sum32 (d : digest) : Z := d.
Definition Checksum (data : list byte) : Z := update 1 data.

(** Reference definition of Adler-32, one modular step per byte; the
    lemmas of Part II show that [update] computes it. *)
Definition refStep (s : Z * Z) (x : byte) : Z * Z :=
  let s1 := (fst s + byteZ x) mod mod_ in
  (s1, (snd s + s1) mod mod_).

Definition ref (s : Z * Z) (p : list byte) : Z * Z := fold_left refStep p s.

(** The additions of one chunk without wrap-around. *)
Definition rawStep (s : Z * Z) (x : byte) : Z * Z :=
  (fst s + byteZ x, snd s + (fst s + byteZ x)).

Definition norm (s : Z * Z) : Z * Z := (fst s mod mod_, snd s mod mod_).

(** The two halves of a digest, as [update] takes them apart. *)
Definition unpack (d : Z) : Z * Z := (Z.land d 65535, Z.shiftr d 16).

(** Both sums below [mod]; both sums in 16 bits. *)
Definition reduced (s : Z * Z) : Prop :=
  0 <= fst s < mod_ /\ 0 <= snd s < mod_.

Definition half (s : Z * Z) : Prop :=
  0 <= fst s < 65536 /\ 0 <= snd s < 65536.

(** The bound that keeps a chunk of [k] bytes inside 32 bits. *)
Definition fits (s : Z * Z) (k : Z) : Prop :=
  0 <= fst s /\ 0 <= snd s /\
  2 * snd s + 2 * k * fst s + 255 * k * (k + 1) < 2 * 2 ^ 32.

(** Plain and position-weighted byte sums: the closed form of [ref]. *)
Definition bsum (p : list byte) : Z := fold_right (fun x a => byteZ x + a) 0 p.

Fixpoint wsum (p : list byte) : Z :=
  match p with
  | [] => 0
  | x :: q => Z.of_nat (List.length p) * byteZ x + wsum q
  end.

End Adler32.

(** ** Strings: the pieces of [strings], [strconv] and [fmt] in use *)

(** The [asciiSpace] table of package [strings]: tab, newline, vertical
    tab, form feed, carriage return and space.  Input containing
    non-ASCII white space (NEL, NBSP, ...) goes through
    [unicode.IsSpace] in Go and is outside this model. *)
Definition asciiSpace (c : ascii) : bool :=
  let n := nat_of_ascii c in
  ((9 <=? n)%nat && (n <=? 13)%nat) || (n =? 32)%nat.

Definition isEmpty (s : string) : bool :=
  match s with EmptyString => true | String _ _ => false end.

(** [strings.Fields]: the maximal runs of non-space characters, in
    order.  [cur] is the field being read. *)
Fixpoint fieldsFrom (cur : string) (s : string) : list string :=
  match s with
  | EmptyString => if isEmpty cur then [] else [cur]
  | String c r =>
      if asciiSpace c
      then (if isEmpty cur then fieldsFrom EmptyString r
            else cur :: fieldsFrom EmptyString r)
      else fieldsFrom (cur ++ String c EmptyString) r
  end.

Definition Fields (s : string) : list string := fieldsFrom EmptyString s.

Fixpoint trimLeft (s : string) : string :=
  match s with
  | EmptyString => EmptyString
  | String c r => if asciiSpace c then trimLeft r else s
  end.

Fixpoint trimRight (s : string) : string :=
  match s with
  | EmptyString => EmptyString
  | String c r =>
      let r' := trimRight r in
      if isEmpty r' && asciiSpace c then EmptyString else String c r'
  end.

(** [strings.TrimSpace] *)
Definition TrimSpace (s : string) : string := trimRight (trimLeft s).

Definition newline : string := String (ascii_of_nat 10) EmptyString.

(** [strings.HasSuffix(s, "\n")] *)
Fixpoint endsWithNewline (s : string) : bool :=
  match s with
  | EmptyString => false
  | String c EmptyString => (nat_of_ascii c =? 10)%nat
  | String _ r => endsWithNewline r
  end.

(** [%v] of an integer. *)
Definition itoa (z : Z) : string := NilZero.string_of_int (Z.to_int z).

(** ** time.Duration.String

    A [Duration] is an [int64] count of nanoseconds.  The library writes
    the text right to left into a buffer; here [buf] is the text written
    so far and each helper returns the longer text. *)
Module Duration.

Definition Nanosecond : Z := 1.
Definition Microsecond : Z := 1000 * Nanosecond.
Definition Millisecond : Z := 1000 * Microsecond.
Definition Second : Z := 1000 * Millisecond.

Definition digitChar (d : Z) : ascii := ascii_of_nat (48 + Z.to_nat d).

(** [fmtFrac]: the loop over [prec] digits, dropping trailing zeros. *)
Fixpoint fmtFracLoop (prec : nat) (v : Z) (print : bool) (buf : string)
  : string * Z * bool :=
  match prec with
  | O => (buf, v, print)
  | S k =>
      let digit := v mod 10 in
      let print := print || negb (digit =? 0) in
      let buf := if print then String (digitChar digit) buf else buf in
      fmtFracLoop k (v / 10) print buf
  end.

Definition fmtFrac (buf : string) (v : Z) (prec : nat) : string * Z :=
  let '(buf, v, print) := fmtFracLoop prec v false buf in
  (if print then String "." buf else buf, v).

Definition fmtInt (buf : string) (v : Z) : string := itoa v ++ buf.

(** The micro sign, U+00B5, as its two UTF-8 bytes. *)
Definition micro : string :=
  String (ascii_of_nat 194) (String (ascii_of_nat 181) EmptyString).

Definition String_ (d : Z) : string :=
  let u := Z.abs d in
  let neg := d <? 0 in
  let body :=
    if u <? Second then
      if u =? 0 then "0s"
      else
        let '(unit, prec) :=
          if u <? Microsecond then ("ns", 0%nat)
          else if u <? Millisecond then (micro ++ "s", 3%nat)
          else ("ms", 6%nat) in
        let '(buf, u) := fmtFrac unit u prec in
        fmtInt buf u
    else
      let '(buf, u) := fmtFrac "s" u 9 in
      let buf := fmtInt buf (u mod 60) in
      let u := u / 60 in
      if 0 <? u then
        let buf := fmtInt (String "m" buf) (u mod 60) in
        let u := u / 60 in
        if 0 <? u then fmtInt (String "h" buf) u else buf
      else buf in
  if neg then String "-" body else body.

(** [time.Duration(n) * time.Second] on [int64]. *)
Definition ofSeconds (n : Z) : Z :=
  let m := (n * Second) mod 2 ^ 64 in
  if m <? 2 ^ 63 then m else m - 2 ^ 64.

End Duration.

(** ** Library functions taken as parameters

    [Quote] is what [%q] prints for a string ([strconv.Quote]); [Join]
    is [filepath.Join].  Neither is part of the program. *)
Class GoLib : Type := {
  Quote : string -> string;
  Join : string -> string -> string
}.

Definition dquote : string := String (ascii_of_nat 34) EmptyString.

(** An instance for running the model on examples: quoting of plain
    printable text and joining of already clean paths. *)
Definition plainLib : GoLib := {|
  Quote := fun s => dquote ++ s ++ dquote;
  Join := fun dir name => dir ++ "/" ++ name
|}.

(** ** Process exit

    [bail] and the [os.Exit] calls end the whole process.  A computation
    that may do so returns [Exit code text] in place of a value; [text]
    is what was printed on the way out. *)
Inductive result (A : Type) : Type :=
| Ok (a : A)
| Exit (code : Z) (text : string).
Arguments Ok {A} a.
Arguments Exit {A} code text.

Definition bind {A B : Type} (r : result A) (k : A -> result B) : result B :=
  match r with
  | Ok a => k a
  | Exit code text => Exit code text
  end.

Notation "x <- r ;; k" := (bind r (fun x => k))
  (at level 61, r at next level, right associativity).

(** [bail]: the text that reaches stderr. *)
Definition bailText (msg : string) : string :=
  let txt := "ERROR: " ++ msg in
  if endsWithNewline txt then txt else txt ++ newline.

Definition bail {A : Type} (msg : string) : result A := Exit 1 (bailText msg).

(** [warn] and [debug]: the text that reaches stderr, which is nothing
    unless [-v] was given.  ([warn] prints under the same ["ERROR: "]
    heading as [bail].) *)
Definition warn (verbose : bool) (msg : string) : string :=
  let txt := "ERROR: " ++ msg in
  let txt := if endsWithNewline txt then txt else txt ++ newline in
  if verbose then txt else EmptyString.

Definition debug (verbose : bool) (msg : string) : string :=
  let txt := "DEBUG: " ++ msg in
  let txt := if endsWithNewline txt then txt else txt ++ newline in
  if verbose then txt else EmptyString.

(** ** The screens (the second source file) *)
Module Screen.

Definition ESC : string := String (ascii_of_nat 27) EmptyString.
Definition CLEAR : string := ESC ++ "[H" ++ ESC ++ "[2J".
Definition BOLD : string := ESC ++ "[1m".
Definition RESET : string := ESC ++ "[0m".
Definition HIDE : string := ESC ++ "[?25l".
Definition SHOW : string := ESC ++ "[?25h".

Inductive kind : Type := plainScreen | vt100Screen.

Record t : Type := mk {
  backend : kind;
  name : string;
  status : string
}.

(** The [screens] registry. *)
Definition screens (scrType : string) : option t :=
  if String.eqb scrType "plain" then Some (mk plainScreen EmptyString EmptyString)
  else if String.eqb scrType "vt100" then Some (mk vt100Screen EmptyString EmptyString)
  else None.

(** [Write]: the text printed on stdout for one frame; [timestamp] is
    the clock reading of [timestamp()]. *)
Definition Write (s : t) (timestamp : string) (b : list byte) : string :=
  let header :=
    match backend s with
    | plainScreen => "WATCH " ++ name s ++ " [" ++ timestamp
    | vt100Screen =>
        CLEAR ++ BOLD ++ "WATCH " ++ name s ++ RESET ++ " [" ++ timestamp
    end in
  let header :=
    if isEmpty (status s) then header else header ++ " " ++ status s in
  let header := header ++ "]" in
  header ++ newline ++ newline ++ string_of_list_byte b.

(** [Status], after [fmt.Sprintf] has built the text. *)
Definition Status (s : t) (txt : string) : t := mk (backend s) (name s) txt.

Definition Name (s : t) (n : string) : t := mk (backend s) n (status s).

Definition Setup (s : t) : string :=
  match backend s with plainScreen => EmptyString | vt100Screen => HIDE end.

Definition Teardown (s : t) : string :=
  match backend s with plainScreen => EmptyString | vt100Screen => SHOW end.

End Screen.

(** ** COMMAND *)

(** The values [cmd.err] can hold; [nil] is [None]. *)
Inductive error : Type :=
| ExitError (code : Z)            (* *exec.ExitError, with its ExitCode() *)
| DeadlineExceeded                (* context.DeadlineExceeded *)
| OtherError (msg : string).      (* anything else, with its Error() text *)

(** What [cmd.Run()] itself can return besides [nil]. *)
Inductive runError : Type :=
| RunExit (code : Z)
| RunOther (msg : string).

Definition errorOfRun (e : runError) : error :=
  match e with
  | RunExit code => ExitError code
  | RunOther msg => OtherError msg
  end.

(** One execution as the operating system delivers it: the bytes the
    process wrote to stdout and stderr, the result of [cmd.Run()], and
    whether the deadline of the context had passed when it returned. *)
Record execution : Type := mkExecution {
  written : list byte;
  runErr : option runError;
  deadlinePassed : bool
}.

Module WatchCommand.

Record t : Type := mk {
  name : string;
  args : list string;
  timeout : Z;
  buf : list byte;
  prev : Z;
  err : option error
}.

Definition hasChanged (c : t) : bool :=
  negb (prev c =? Adler32.Checksum (buf c)).

Definition run (c : t) (x : execution) : t :=
  let prev := Adler32.Checksum (buf c) in
  let buf := written x in
  let err := option_map errorOfRun (runErr x) in
  let err := if deadlinePassed x then Some DeadlineExceeded else err in
  mk (name c) (args c) (timeout c) buf prev err.

Definition output (c : t) : string :=
  TrimSpace (string_of_list_byte (buf c)).

End WatchCommand.

(** ** PATHS *)

(** The file system as one [update] sees it. *)
Inductive node : Type :=
| File (regular : bool)                  (* not a directory; Mode().IsRegular() *)
| Dir (entries : list (string * node))   (* names as the directory lists them *)
| DirError (e : string)                  (* a directory that cannot be listed *)
| LstatError (e : string).               (* a name whose lstat fails *)

Record World : Type := mkWorld {
  (** [os.Stat]: an error text, or [IsDir()]. *)
  Stat : string -> string + bool;
  (** What [filepath.Walk] finds at a root. *)
  Tree : string -> node;
  (** [os.ReadFile]: an error text, or the contents. *)
  ReadFile : string -> string + list byte
}.

(** What the walking goroutine does next: send a path on the channel, or
    [bail] on an error. *)
Inductive item : Type :=
| Send (path : string)
| Fail (path : string) (e : string).

(** [sort.Strings] on the names of a directory, carrying what was found
    under each name. *)
Fixpoint insertByName {A : Type} (x : string * A) (l : list (string * A))
  : list (string * A) :=
  match l with
  | [] => [x]
  | y :: r => if String.leb (fst x) (fst y) then x :: l else y :: insertByName x r
  end.

Definition sortByName {A : Type} (l : list (string * A)) : list (string * A) :=
  fold_right insertByName [] l.

Module WatchPaths.
Section WithLib.
Context {lib : GoLib}.

Record t : Type := mk {
  files : list string;
  dirs : list string;
  prev : Z;
  hash : Adler32.digest
}.

(** The loop body of [NewWatchPaths]. *)
Fixpoint classify (w : World) (paths : list string) (wp : t) : result t :=
  match paths with
  | [] => Ok wp
  | p :: rest =>
      match Stat w p with
      | inl e => bail ("invalid path " ++ Quote p ++ ": " ++ e)
      | inr true =>
          classify w rest (mk (files wp) (dirs wp ++ [p]) (prev wp) (hash wp))
      | inr false =>
          classify w rest (mk (files wp ++ [p]) (dirs wp) (prev wp) (hash wp))
      end
  end.

(** A [*WatchPaths] is an [option t]; [nil] is [None]. *)
Definition NewWatchPaths (w : World) (pathStr : string) : result (option t) :=
  if isEmpty pathStr then Ok None
  else
    let paths := Fields pathStr in
    let wp := mk [] [] 0 Adler32.New in
    wp <- classify w paths wp ;;
    Ok (Some wp).

Definition hasChanged (p : option t) : bool :=
  match p with
  | None => true
  | Some p => negb (prev p =? Adler32.Sum32 (hash p))
  end.

(** [filepath.Walk] with the callback of [update]: the callback is run
    on the root and then, for a directory, on everything below each of
    its names in sorted order. *)
Fixpoint walk (path : string) (n : node) : list item :=
  match n with
  | File regular => if regular then [Send path] else []
  | Dir entries =>
      let below :=
        map (fun e => match e with
                      | (name, child) => (name, walk (Join path name) child)
                      end) entries in
      List.concat (map snd (sortByName below))
  | DirError e => [Fail path e]
  | LstatError e => [Fail path e]
  end.

(** Everything the goroutine of [update] does, in order: the configured
    files, then one walk per configured directory. *)
Definition enumerate (w : World) (p : t) : list item :=
  (map Send (files p) ++ flat_map (fun dir => walk dir (Tree w dir)) (dirs p))%list.

(** The receiving loop [for f := range files].  The goroutine and this
    loop run side by side over a channel of capacity one; the loop
    handles the paths in the order they were sent, so the accumulator
    depends on that order only, and the model takes the two in
    lockstep.  (When a walk and a read both fail, which of the two
    messages is printed may differ in an actual run; the exit status is
    1 either way.) *)
Fixpoint feed (w : World) (items : list item) (h : Adler32.digest)
  : result Adler32.digest :=
  match items with
  | [] => Ok h
  | Send f :: rest =>
      match ReadFile w f with
      | inl e => bail ("error reading " ++ Quote f ++ ": " ++ e)
      | inr data => feed w rest (Adler32.Write h data)
      end
  | Fail path e :: _ => bail ("error walking " ++ Quote path ++ ": " ++ e)
  end.

Definition update (w : World) (p : option t) : result (option t) :=
  match p with
  | None => Ok None
  | Some p =>
      let prev := Adler32.Sum32 (hash p) in
      h <- feed w (enumerate w p) Adler32.Reset ;;
      Ok (Some (mk (files p) (dirs p) prev h))
  end.

(** The paths sent by a walk, errors left out. *)
Definition sent (items : list item) : list string :=
  flat_map (fun i => match i with Send f => [f] | Fail _ _ => [] end) items.

End WithLib.
End WatchPaths.

(** ** main *)

(** The parsed command line. *)
Record Flags : Type := mkFlags {
  help : bool;
  verbose : bool;
  delay : Z;
  timeout : Z;
  pathStr : string;
  scrType : string;
  arguments : list string     (* flag.Args() *)
}.

Definition usage : string :=
"               _       _     
__      ____ _| |_ ___| |__  
\ \ /\ / / _' | __/ __| '_ \ 
 \ V  V / (_| | || (__| | | |
  \_/\_/ \__,_|\__\___|_| |_|

Usage: watch [options] command [args...]

Watch a command and its output. There is a delay between commands (-d)
and if a timeout (-t) is reached then watch will exit.

The paths (-p) are a space separated list of paths to watch for changes.
Directories are searched recursively. When no changes are detected the
command is not run.

The screen type determines how the output is displayed. The default, plain,
will just print the output to stdout with no formatting.

Screen types
    plain
        Plain text output.
    vt100
        VT100 terminal output.

Options:
".

(** The variables of [main] that live across cycles. *)
Record State : Type := mkState {
  cmd : WatchCommand.t;
  paths : option WatchPaths.t;
  screen : Screen.t;
  first : bool
}.

(** What one cycle is given from outside: the file system at the time
    of [paths.update()], the execution of the command should it be
    started, and the wall clock reading for a frame. *)
Record Env : Type := mkEnv {
  world : World;
  exec : execution;
  clock : string
}.

(** What the main goroutine does that can be observed. *)
Inductive event : Type :=
| Sleep (d : Z)                                 (* time.Sleep(delay) *)
| Run (name : string) (args : list string)      (* the command is executed *)
| Frame (text : string).                        (* one Write to the screen *)

(** One turn of the [for] loop: it reaches the end of the body (or the
    [continue]) with a new state, or the process exits. *)
Inductive step : Type :=
| Continue (evs : list event) (s : State)
| Stop (evs : list event) (code : Z) (text : string).

Definition isRun (e : event) : bool :=
  match e with Run _ _ => true | _ => false end.

Definition isFrame (e : event) : bool :=
  match e with Frame _ => true | _ => false end.

Definition events (st : step) : list event :=
  match st with Continue evs _ => evs | Stop evs _ _ => evs end.

(** The command was executed / a frame was written during a cycle. *)
Definition executed (st : step) : bool := existsb isRun (events st).
Definition drawn (st : step) : bool := existsb isFrame (events st).

Section Main.
Context {lib : GoLib}.

(** [%q] of a [[]string]. *)
Definition quoteList (l : list string) : string :=
  "[" ++ String.concat " " (map Quote l) ++ "]".

(** [main] up to the loop.  The text of [flag.PrintDefaults], the
    [debug] lines (stderr only, under [-v]) and the goroutine that
    waits for a signal are left out: none of them touches the state of
    the loop.  The value returned with the state is what [Setup]
    printed. *)
Definition start (f : Flags) (w : World) : result (string * State) :=
  if help f then Exit 0 usage
  else
    match arguments f with
    | [] => bail "No command specified."
    | name :: args =>
        let cmd :=
          WatchCommand.mk name args (Duration.ofSeconds (timeout f)) [] 0 None in
        paths <- WatchPaths.NewWatchPaths w (pathStr f) ;;
        match Screen.screens (scrType f) with
        | None => Exit 2 ("Unknown screen type: " ++ scrType f ++ newline)
        | Some screen =>
            let screen := Screen.Name screen name in
            Ok (Screen.Setup screen, mkState cmd paths screen true)
        end
    end.

(** The chain of tests on [cmd.err] after [cmd.run()]. *)
Definition report (c : WatchCommand.t) (scr : Screen.t) : result Screen.t :=
  match WatchCommand.err c with
  | Some (ExitError code) => Ok (Screen.Status scr ("exit code " ++ itoa code))
  | Some DeadlineExceeded =>
      bail ("timeout after " ++ Duration.String_ (WatchCommand.timeout c))
  | Some (OtherError msg) =>
      bail ("executing " ++ Quote (WatchCommand.name c) ++ " with args "
            ++ quoteList (WatchCommand.args c) ++ ": " ++ msg)
  | None =>
      if isEmpty (WatchCommand.output c)
      then Ok (Screen.Status scr "no output")
      else Ok (Screen.Status scr EmptyString)
  end.

(** The body of the [for] loop. *)
Definition cycle (delay : Z) (e : Env) (s : State) : step :=
  match WatchPaths.update (world e) (paths s) with
  | Exit code text => Stop [Sleep delay] code text
  | Ok paths =>
      if negb (WatchPaths.hasChanged paths)
      then Continue [Sleep delay] (mkState (cmd s) paths (screen s) (first s))
      else
        let c := WatchCommand.run (cmd s) (exec e) in
        let ran := [Sleep delay; Run (WatchCommand.name c) (WatchCommand.args c)] in
        match report c (screen s) with
        | Exit code text => Stop ran code text
        | Ok scr =>
            let frame :=
              if WatchCommand.hasChanged c || first s
              then [Frame (Screen.Write scr (clock e) (WatchCommand.buf c))]
              else [] in
            Continue (ran ++ frame)%list (mkState c paths scr false)
        end
  end.

(** The loop, for as many cycles as there are environments.  The loop
    of the program has no exit of its own: it ends only with the
    process. *)
Fixpoint loop (delay : Z) (envs : list Env) (s : State) : step :=
  match envs with
  | [] => Continue [] s
  | e :: rest =>
      match cycle delay e s with
      | Stop evs code text => Stop evs code text
      | Continue evs s' =>
          match loop delay rest s' with
          | Stop evs' code text => Stop (evs ++ evs')%list code text
          | Continue evs' s'' => Continue (evs ++ evs')%list s''
          end
      end
  end.


End Main.

(** ** Vocabulary of the statements *)

(** A string made of white space only. *)
Fixpoint allSpace (s : string) : bool :=
  match s with
  | EmptyString => true
  | String c r => asciiSpace c && allSpace r
  end.

(** [stat.IsDir()] for a path that can be stat'ed. *)
Definition isDir (w : World) (p : string) : bool :=
  match Stat w p with inr true => true | _ => false end.

(** A tree that [filepath.Walk] gets through without an error and
    without meeting a regular file. *)
Fixpoint bare (n : node) : bool :=
  match n with
  | File regular => negb regular
  | Dir entries =>
      forallb (fun e => match e with (_, child) => bare child end) entries
  | DirError _ => false
  | LstatError _ => false
  end.


(** Several calls of [update], one file system state for each. *)
Fixpoint updates {lib : GoLib} (ws : list World) (p : option WatchPaths.t)
  : result (option WatchPaths.t) :=
  match ws with
  | [] => Ok p
  | w :: rest => p' <- WatchPaths.update w p ;; updates rest p'
  end.


(** What one cycle can leave in the trace: the sleep alone, the sleep
    and the execution, or these and a frame. *)
Definition block (delay : Z) (name : string) (args : list string)
    (b : list event) : Prop :=
  b = [Sleep delay] \/
  b = [Sleep delay; Run name args] \/
  exists text, b = [Sleep delay; Run name args; Frame text].



(** What never changes from cycle to cycle. *)
Definition sameConfiguration (s s' : State) : Prop :=
  WatchCommand.name (cmd s') = WatchCommand.name (cmd s) /\
  WatchCommand.args (cmd s') = WatchCommand.args (cmd s) /\
  WatchCommand.timeout (cmd s') = WatchCommand.timeout (cmd s) /\
  Screen.backend (screen s') = Screen.backend (screen s) /\
  Screen.name (screen s') = Screen.name (screen s) /\
  option_map WatchPaths.files (paths s') = option_map WatchPaths.files (paths s) /\
  option_map WatchPaths.dirs (paths s') = option_map WatchPaths.dirs (paths s).

(** The way out through [bail]: status 1 and one ["ERROR: "] line. *)
Definition fatal (code : Z) (text : string) : Prop :=
  code = 1 /\ String.prefix "ERROR: " text = true /\ endsWithNewline text = true.

(** A whole number of seconds in hours, minutes and seconds. *)
Definition hms (n : Z) : string :=
  (if 0 <? n / 3600 then itoa (n / 3600) ++ "h" else EmptyString)
  ++ (if 0 <? n / 60 then itoa ((n / 60) mod 60) ++ "m" else EmptyString)
  ++ itoa (n mod 60) ++ "s".

(** What [update] reads in a world: each path sent, with its contents. *)
Definition readAll (w : World) (files : list string)
    (contents : list (list byte)) : Prop :=
  Forall2 (fun file data => ReadFile w file = inr data) files contents.


(** ** Inputs for running the model *)
Module Demo.

Definition bytes (s : string) : list byte := list_byte_of_string s.

Definition second : Z := Duration.Second.

(** [./data] holds two files, a symbolic link and a directory with
    one more file; [notes] is a file beside it. *)
Definition dataTree : node :=
  Dir [ ("b.txt", File true);
        ("sub", Dir [ ("z.txt", File true); ("a.txt", File true) ]);
        ("link", File false);
        ("Makefile", File true) ].

Definition world : World := {|
  Stat := fun p =>
    if String.eqb p "data" then inr true
    else if String.eqb p "notes" then inr false
    else inl "no such file or directory";
  Tree := fun p =>
    if String.eqb p "data" then dataTree
    else LstatError "no such file or directory";
  ReadFile := fun p => inr (bytes ("<" ++ p ++ ">"))
|}.

(** Every path is an empty directory. *)
Definition emptyDirs : World := {|
  Stat := fun _ => inr true;
  Tree := fun _ => Dir [];
  ReadFile := fun _ => inl "is a directory"
|}.

Definition flags (pathStr : string) : Flags :=
  mkFlags false false 1 5 pathStr "plain" ["echo"; "hello"].

(** The state [main] enters the loop with when no paths are watched. *)
Definition state0 : State :=
  mkState (WatchCommand.mk "echo" ["hello"] (5 * second) [] 0 None)
          None
          (Screen.mk Screen.plainScreen "echo" EmptyString)
          true.

Definition withPaths (p : option WatchPaths.t) (s : State) : State :=
  mkState (cmd s) p (screen s) (first s).

(** Executions: a clean one, exit status 3, a missed deadline with the
    process killed, a command that cannot be started, and one that
    prints 65521 zero bytes. *)
Definition hello : execution := mkExecution (bytes "hello") None false.
Definition exit3 : execution := mkExecution (bytes "oops") (Some (RunExit 3)) false.
Definition late : execution := mkExecution (bytes "hel") (Some (RunExit (-1))) true.
Definition lateExit3 : execution := mkExecution (bytes "hel") (Some (RunExit 3)) true.
Definition missing : execution :=
  mkExecution [] (Some (RunOther "exec: no such file")) false.
Definition zeros : execution :=
  mkExecution (repeat "000"%byte (Z.to_nat 65521)) None false.

Definition env (w : World) (x : execution) : Env := mkEnv w x "12:00:00".

(** The watcher over [notes] and [./data] after one [update] in
    [world], and after a second one. *)
Definition watched : WatchPaths.t :=
  WatchPaths.mk ["notes"] ["data"] 1 431822759.
Definition settled : WatchPaths.t :=
  WatchPaths.mk ["notes"] ["data"] 431822759 431822759.

(** The watcher [main] builds for [-p data]. *)
Definition fresh : WatchPaths.t := WatchPaths.mk [] ["data"] 0 1.

(** The states after one and after two cycles that ran [hello]. *)
Definition state1 : State :=
  mkState (WatchCommand.mk "echo" ["hello"] (5 * second) (bytes "hello") 1 None)
          None
          (Screen.mk Screen.plainScreen "echo" EmptyString)
          false.
Definition state2 : State :=
  mkState (WatchCommand.mk "echo" ["hello"] (5 * second) (bytes "hello")
                           103547413 None)
          None
          (Screen.mk Screen.plainScreen "echo" EmptyString)
          false.


Definition jello : execution := mkExecution (bytes "jello") None false.

(** Two files [a] and [b] holding ["ab"] and ["c"], and the same files
    holding ["a"] and ["bc"]. *)
Definition split1 : World := {|
  Stat := fun _ => inr false;
  Tree := fun _ => File true;
  ReadFile := fun p => if String.eqb p "a" then inr (bytes "ab") else inr (bytes "c")
|}.
Definition split2 : World := {|
  Stat := fun _ => inr false;
  Tree := fun _ => File true;
  ReadFile := fun p => if String.eqb p "a" then inr (bytes "a") else inr (bytes "bc")
|}.
Definition pair : WatchPaths.t := WatchPaths.mk ["a"; "b"] [] 0 1.


End Demo.

(* ================================================================== *)
(** * Part II: lemmas and theorems *)
(* ================================================================== *)

(** ** Adler-32: the chunked loop against the reference sums *)
Module Adler32Facts.
Import Adler32.

Lemma byteZ_range (x : byte) : 0 <= byteZ x <= 255.
Proof.
  unfold byteZ. pose proof (Byte.to_N_bounded x). lia.
Qed.

Lemma norm_rawStep (s : Z * Z) (x : byte) :
  norm (rawStep s x) = refStep (norm s) x.
Proof.
  destruct s as [s1 s2]. unfold norm, rawStep, refStep, mod_. cbn [fst snd].
  f_equal.
  - now rewrite Zplus_mod_idemp_l.
  - rewrite Zplus_mod_idemp_l, Zplus_mod_idemp_r.
    replace (s2 + (s1 mod 65521 + byteZ x)) with (s1 mod 65521 + (s2 + byteZ x)) by lia.
    rewrite Zplus_mod_idemp_l. f_equal. lia.
Qed.

(** Reducing at the end of a chunk is the same as reducing at every byte. *)
Lemma norm_raw (p : list byte) (s : Z * Z) :
  norm (fold_left rawStep p s) = ref (norm s) p.
Proof.
  revert s. induction p as [|x p IH]; intros s; cbn; [reflexivity|].
  rewrite IH, norm_rawStep. reflexivity.
Qed.

Lemma addByte_raw (p : list byte) (s : Z * Z) :
  fits s (Z.of_nat (List.length p)) ->
  fold_left addByte p s = fold_left rawStep p s.
Proof.
  revert s. induction p as [|x p IH]; intros [s1 s2] H; [reflexivity|].
  unfold fits in H. cbn [fst snd List.length] in H.
  rewrite Nat2Z.inj_succ in H.
  pose proof (byteZ_range x) as Hx.
  set (k := Z.of_nat (List.length p)) in *.
  assert (0 <= k) by (subst k; lia).
  cbn [fold_left].
  assert (E : addByte (s1, s2) x = rawStep (s1, s2) x).
  { unfold addByte, rawStep, u32. cbn [fst snd].
    rewrite (Z.mod_small (s1 + byteZ x)) by nia.
    rewrite Z.mod_small by nia. reflexivity. }
  rewrite E. apply IH. unfold fits, rawStep. cbn [fst snd]. fold k.
  repeat split; try lia. nia.
Qed.

Lemma fits_chunk (s : Z * Z) (k : Z) :
  half s -> 0 <= k <= 5552 -> fits s k.
Proof.
  destruct s as [s1 s2]. unfold half, fits. cbn [fst snd]. intros [H1 H2] Hk.
  repeat split; try lia.
  assert (k * s1 <= 5552 * 65535) by nia.
  assert (k * (k + 1) <= 5552 * 5553) by nia.
  lia.
Qed.

Lemma reduced_half (s : Z * Z) : reduced s -> half s.
Proof. unfold reduced, half, mod_. lia. Qed.

Lemma norm_reduced (s : Z * Z) : reduced (norm s).
Proof.
  unfold reduced, norm, mod_. cbn [fst snd].
  split; apply Z.mod_pos_bound; lia.
Qed.

Lemma norm_id (s : Z * Z) : reduced s -> norm s = s.
Proof.
  destruct s as [s1 s2]. unfold reduced, norm. cbn [fst snd]. intros [H1 H2].
  now rewrite !Z.mod_small.
Qed.

Lemma ref_app (s : Z * Z) (a b : list byte) :
  ref s (a ++ b) = ref (ref s a) b.
Proof. unfold ref. apply fold_left_app. Qed.

Lemma ref_reduced (p : list byte) (s : Z * Z) :
  reduced s -> reduced (ref s p).
Proof.
  revert s. induction p as [|x p IH]; intros s H; [exact H|].
  cbn. apply IH. unfold reduced, refStep, mod_. cbn [fst snd].
  split; apply Z.mod_pos_bound; lia.
Qed.

Lemma nmax_pos : 1 <= Z.of_nat nmax <= 5552.
Proof. unfold nmax. rewrite Z2Nat.id; lia. Qed.

(** The chunked loop computes the reference sums. *)
Lemma updateLoop_ref (fuel : nat) :
  forall (p : list byte) (s1 s2 : Z),
    (List.length p <= fuel)%nat ->
    half (s1, s2) ->
    updateLoop fuel s1 s2 p =
      match p with [] => (s1, s2) | _ :: _ => ref (norm (s1, s2)) p end.
Proof.
  induction fuel as [|fuel IH]; intros p s1 s2 Hlen Hs.
  - destruct p; [reflexivity | cbn in Hlen; lia].
  - destruct p as [|x p]; [reflexivity|].
    cbn [updateLoop].
    pose proof nmax_pos as Hn.
    set (l := x :: p) in *.
    set (c := firstn nmax l). set (q := skipn nmax l).
    assert (Hc : Z.of_nat (List.length c) <= 5552).
    { subst c. rewrite length_firstn. lia. }
    assert (Hq : (List.length q <= fuel)%nat).
    { subst q. rewrite length_skipn. subst l. cbn [List.length] in *. lia. }
    rewrite addByte_raw by (apply fits_chunk; [exact Hs | lia]).
    pose proof (norm_raw c (s1, s2)) as Hnorm.
    set (s' := fold_left rawStep c (s1, s2)) in *.
    change (fst s' mod mod_) with (fst (norm s')).
    change (snd s' mod mod_) with (snd (norm s')).
    rewrite IH; [| exact Hq | apply reduced_half; apply norm_reduced ].
    rewrite <- surjective_pairing.
    assert (El : l = (c ++ q)%list) by (subst c q; now rewrite firstn_skipn).
    destruct q as [|y q'].
    + rewrite app_nil_r in El. rewrite Hnorm. now rewrite El.
    + rewrite (norm_id (norm s')) by apply norm_reduced.
      rewrite Hnorm, <- ref_app, <- El. reflexivity.
Qed.

Lemma pack_add (s1 s2 : Z) :
  half (s1, s2) -> pack s1 s2 = s2 * 65536 + s1.
Proof.
  unfold half, pack, u32. cbn [fst snd]. intros [H1 H2].
  rewrite Z.shiftl_mul_pow2 by lia.
  rewrite Z.mod_small by lia.
  change (2 ^ 16) with 65536.
  pose proof (Z.add_lor_land (s2 * 65536) s1) as E.
  enough (L : Z.land (s2 * 65536) s1 = 0) by lia.
  apply Z.bits_inj'. intros n Hn.
  rewrite Z.land_spec, Z.bits_0.
  destruct (Z.ltb_spec n 16).
  - change 65536 with (2 ^ 16). rewrite Z.mul_pow2_bits_low by lia. reflexivity.
  - rewrite <- (Z.mod_small s1 (2 ^ 16)) by (change (2 ^ 16) with 65536; lia).
    rewrite (Z.mod_pow2_bits_high s1 16 n) by lia.
    apply andb_false_r.
Qed.

Lemma unpack_spec (d : Z) : unpack d = (d mod 65536, d / 65536).
Proof.
  unfold unpack. change 65535 with (Z.ones 16).
  rewrite Z.land_ones by lia. rewrite Z.shiftr_div_pow2 by lia. reflexivity.
Qed.

Lemma unpack_half (d : Z) : 0 <= d < 2 ^ 32 -> half (unpack d).
Proof.
  intros H. rewrite unpack_spec. unfold half. cbn [fst snd].
  split; [apply Z.mod_pos_bound; lia|].
  split; [apply Z.div_pos; lia | apply Z.div_lt_upper_bound; lia].
Qed.

Lemma pack_unpack (d : Z) :
  0 <= d < 2 ^ 32 -> pack (fst (unpack d)) (snd (unpack d)) = d.
Proof.
  intros H. rewrite pack_add by (rewrite <- surjective_pairing; now apply unpack_half).
  rewrite unpack_spec. cbn [fst snd].
  pose proof (Z.div_mod d 65536). lia.
Qed.

Lemma unpack_pack (s : Z * Z) :
  half s -> unpack (pack (fst s) (snd s)) = s.
Proof.
  destruct s as [s1 s2]. intros H. cbn [fst snd]. rewrite pack_add by exact H.
  rewrite unpack_spec. unfold half in H. cbn [fst snd] in H.
  f_equal.
  - rewrite Z.add_comm, Z.mod_add by lia. apply Z.mod_small. lia.
  - rewrite Z.div_add_l by lia. rewrite (Z.div_small s1) by lia. lia.
Qed.

(** [update] in terms of the reference sums. *)
Lemma update_ref (d : Z) (p : list byte) :
  0 <= d < 2 ^ 32 ->
  update d p =
    match p with
    | [] => d
    | _ :: _ => let s := ref (norm (unpack d)) p in pack (fst s) (snd s)
    end.
Proof.
  intros H. unfold update.
  change (Z.land d 65535) with (fst (unpack d)).
  change (Z.shiftr d 16) with (snd (unpack d)).
  rewrite updateLoop_ref; [| lia | rewrite <- surjective_pairing; now apply unpack_half].
  rewrite <- surjective_pairing.
  destruct p; [now apply pack_unpack | reflexivity].
Qed.

Lemma pack_range (s : Z * Z) : half s -> 0 <= pack (fst s) (snd s) < 2 ^ 32.
Proof.
  intros H. rewrite pack_add by (now rewrite <- surjective_pairing).
  unfold half in H. lia.
Qed.

Lemma update_range (d : Z) (p : list byte) :
  0 <= d < 2 ^ 32 -> 0 <= update d p < 2 ^ 32.
Proof.
  intros H. rewrite update_ref by exact H. destruct p as [|x p]; [exact H|].
  cbv zeta. apply pack_range, reduced_half, ref_reduced, norm_reduced.
Qed.

(** Writing [a] and then [b] is writing [a ++ b]. *)
Lemma update_app (d : Z) (a b : list byte) :
  0 <= d < 2 ^ 32 ->
  update (update d a) b = update d (a ++ b).
Proof.
  intros H.
  destruct a as [|x a]; [now rewrite (update_ref d []) by exact H|].
  rewrite (update_ref _ b) by (now apply update_range).
  destruct b as [|y b]; [now rewrite app_nil_r|].
  rewrite !(update_ref d) by exact H. cbn [app]. cbv zeta.
  set (s := ref (norm (unpack d)) (x :: a)).
  assert (Hs : reduced s) by apply ref_reduced, norm_reduced.
  rewrite unpack_pack by now apply reduced_half.
  rewrite norm_id by exact Hs.
  change (x :: (a ++ y :: b)%list) with ((x :: a) ++ y :: b)%list.
  rewrite ref_app. reflexivity.
Qed.

Lemma write_chunks (chunks : list (list byte)) (d : Z) :
  0 <= d < 2 ^ 32 ->
  fold_left Write chunks d = Write d (List.concat chunks).
Proof.
  revert d. induction chunks as [|c chunks IH]; intros d H; cbn.
  - unfold Write. now rewrite update_ref by exact H.
  - rewrite IH by (now apply update_range). unfold Write. now apply update_app.
Qed.
(** The sums of a chunk in closed form. *)
Lemma raw_closed (p : list byte) (s1 s2 : Z) :
  fold_left rawStep p (s1, s2) =
    (s1 + bsum p, s2 + Z.of_nat (List.length p) * s1 + wsum p).
Proof.
  revert s1 s2. induction p as [|x p IH]; intros s1 s2.
  - cbn. f_equal; lia.
  - cbn [fold_left]. unfold rawStep at 2. cbn [fst snd]. rewrite IH.
    cbn [bsum fold_right wsum List.length]. fold (bsum p).
    rewrite Nat2Z.inj_succ. f_equal; lia.
Qed.

Lemma Checksum_closed (p : list byte) :
  Checksum p =
    ((Z.of_nat (List.length p) + wsum p) mod mod_) * 65536
    + (1 + bsum p) mod mod_.
Proof.
  unfold Checksum. rewrite update_ref by lia.
  destruct p as [|x p]; [reflexivity|].
  cbv zeta. change (norm (unpack 1)) with (norm (1, 0)).
  rewrite <- norm_raw, raw_closed.
  rewrite pack_add by (rewrite <- surjective_pairing; apply reduced_half, norm_reduced).
  unfold norm. cbn [fst snd]. do 3 f_equal. lia.
Qed.

Lemma bsum_range (p : list byte) :
  0 <= bsum p <= 255 * Z.of_nat (List.length p).
Proof.
  induction p as [|x p IH]; [cbn; lia|].
  cbn [bsum fold_right List.length]. fold (bsum p).
  pose proof (byteZ_range x). lia.
Qed.

Lemma wsum_range (p : list byte) :
  0 <= wsum p <= Z.of_nat (List.length p) * bsum p.
Proof.
  induction p as [|x p IH]; [cbn; lia|].
  cbn [wsum bsum fold_right]. fold (bsum p).
  pose proof (byteZ_range x). pose proof (bsum_range p).
  cbn [List.length]. rewrite Nat2Z.inj_succ. nia.
Qed.

(** Up to 256 bytes the byte sum cannot wrap around [mod], so only the
    empty input has the checksum of the empty input. *)
Lemma Checksum_short (p : list byte) :
  p <> [] -> Z.of_nat (List.length p) <= 256 -> Checksum p <> 1.
Proof.
  intros Hne Hlen E. rewrite Checksum_closed in E.
  pose proof (bsum_range p) as Hb. pose proof (wsum_range p) as Hw.
  unfold mod_ in E.
  assert (H1 : 0 <= (1 + bsum p) mod 65521 < 65521) by (apply Z.mod_pos_bound; lia).
  assert (H2 : 0 <= (Z.of_nat (List.length p) + wsum p) mod 65521 < 65521)
    by (apply Z.mod_pos_bound; lia).
  assert (E1 : (1 + bsum p) mod 65521 = 1) by lia.
  assert (E2 : (Z.of_nat (List.length p) + wsum p) mod 65521 = 0) by lia.
  rewrite Z.mod_small in E1 by lia.
  assert (Hb0 : bsum p = 0) by lia.
  rewrite Hb0 in Hw.
  rewrite Z.mod_small in E2 by lia.
  destruct p; [congruence | cbn [List.length] in E2; lia].
Qed.

Lemma Checksum_nil : Checksum [] = 1.
Proof. reflexivity. Qed.

Lemma Checksum_range (p : list byte) : 0 <= Checksum p < 2 ^ 32.
Proof. apply update_range. lia. Qed.
End Adler32Facts.

(** ** Sorting the names of a directory *)



Section SortFacts.
Context {A B : Type}.

Lemma insertByName_perm (x : string * A) (l : list (string * A)) :
  Permutation (insertByName x l) (x :: l).
Proof.
  induction l as [|y l IH]; cbn; [reflexivity|].
  destruct (String.leb (fst x) (fst y)); [reflexivity|].
  rewrite IH. apply perm_swap.
Qed.

Lemma sortByName_perm (l : list (string * A)) :
  Permutation (sortByName l) l.
Proof.
  induction l as [|x l IH]; cbn; [reflexivity|].
  rewrite insertByName_perm. now constructor.
Qed.





(** Sorting looks at the names only. *)
Lemma insertByName_map (f : string -> A -> B) (x : string * A) l :
  insertByName (fst x, f (fst x) (snd x))
               (map (fun e => (fst e, f (fst e) (snd e))) l)
  = map (fun e => (fst e, f (fst e) (snd e))) (insertByName x l).
Proof.
  induction l as [|y l IH]; cbn; [reflexivity|].
  destruct (String.leb (fst x) (fst y)); cbn; [reflexivity|].
  now rewrite IH.
Qed.

Lemma sortByName_map (f : string -> A -> B) (l : list (string * A)) :
  sortByName (map (fun e => (fst e, f (fst e) (snd e))) l)
  = map (fun e => (fst e, f (fst e) (snd e))) (sortByName l).
Proof.
  induction l as [|x l IH]; cbn; [reflexivity|].
  fold (sortByName l).
  fold (sortByName (map (fun e => (fst e, f (fst e) (snd e))) l)).
  rewrite IH. apply insertByName_map.
Qed.
End SortFacts.

(** ** PATHS: construction, walking, feeding *)
Section PathFacts.
Context {lib : GoLib}.
Import WatchPaths.

(** Induction on a tree, with the property known for all entries of a
    directory. *)
Lemma node_nested_ind (P : node -> Prop) :
  (forall regular, P (File regular)) ->
  (forall entries, Forall (fun e => P (snd e)) entries -> P (Dir entries)) ->
  (forall e, P (DirError e)) ->
  (forall e, P (LstatError e)) ->
  forall n, P n.
Proof.
  intros HFile HDir HDirError HLstat.
  fix IH 1. intros [regular | entries | e | e].
  - apply HFile.
  - apply HDir. induction entries as [|[name child] entries IHentries].
    + constructor.
    + constructor; [apply IH | exact IHentries].
  - apply HDirError.
  - apply HLstat.
Qed.

Lemma flat_map_all_nil {X Y : Type} (f : X -> list Y) (l : list X) :
  (forall x, In x l -> f x = []) -> flat_map f l = [].
Proof.
  induction l as [|x l IH]; intros H; [reflexivity|].
  cbn. rewrite H by now left. apply IH. intros y Hy. apply H. now right.
Qed.

(** A directory is walked name by name in sorted order, everything
    below one name before the next name. *)
Lemma walk_dir (path : string) (entries : list (string * node)) :
  walk path (Dir entries) =
    flat_map (fun e => walk (Join path (fst e)) (snd e)) (sortByName entries).
Proof.
  cbn [walk].
  set (f := fun name child => walk (Join path name) child).
  rewrite (map_ext _ (fun e => (fst e, f (fst e) (snd e))))
    by (intros [? ?]; reflexivity).
  rewrite (sortByName_map f), map_map. cbn [snd].
  now rewrite <- flat_map_concat_map.
Qed.

Lemma bare_walk (n : node) :
  forall path, bare n = true -> walk path n = [].
Proof.
  induction n as [regular | entries IH | e | e] using node_nested_ind;
    intros path H; try discriminate.
  - cbn in *. now destruct regular.
  - rewrite walk_dir. cbn [bare] in H. rewrite forallb_forall in H.
    rewrite Forall_forall in IH.
    apply flat_map_all_nil. intros y Hy.
    apply (Permutation_in _ (sortByName_perm entries)) in Hy.
    apply IH; [exact Hy|]. specialize (H y Hy). now destruct y.
Qed.

Lemma classify_spec (w : World) (paths : list string) :
  forall wp wp',
    classify w paths wp = Ok wp' ->
    files wp' = (files wp ++ filter (fun p => negb (isDir w p)) paths)%list /\
    dirs wp' = (dirs wp ++ filter (isDir w) paths)%list /\
    prev wp' = prev wp /\ hash wp' = hash wp.
Proof.
  induction paths as [|p paths IH]; intros wp wp' H; cbn in H.
  - injection H as <-. cbn. now rewrite !app_nil_r.
  - unfold isDir. cbn [filter].
    destruct (Stat w p) as [e | [|]]; [discriminate | |];
      apply IH in H; cbn in H; destruct H as (Hf & Hd & Hp & Hh);
      rewrite Hf, Hd, Hp, Hh; cbn; rewrite <- ?app_assoc; auto.
Qed.

Lemma NewWatchPaths_some (w : World) (pathStr : string) (wp : t) :
  NewWatchPaths w pathStr = Ok (Some wp) ->
  files wp = filter (fun p => negb (isDir w p)) (Fields pathStr) /\
  dirs wp = filter (isDir w) (Fields pathStr) /\
  prev wp = 0 /\ hash wp = Adler32.New.
Proof.
  unfold NewWatchPaths. destruct (isEmpty pathStr); [discriminate|].
  unfold bind.
  destruct (classify w (Fields pathStr) _) as [wp0|] eqn:E; [|discriminate].
  intros H. injection H as <-. now apply classify_spec in E.
Qed.

Lemma fieldsFrom_blank (s : string) :
  allSpace s = true -> fieldsFrom EmptyString s = [].
Proof.
  induction s as [|c s IH]; cbn; [reflexivity|].
  intros H. apply andb_prop in H as [Hc Hs]. rewrite Hc. cbn. now apply IH.
Qed.

(** A feeding loop that comes to its end has met no error and has
    written the contents of every path sent, in the order sent. *)
Lemma feed_ok (w : World) (items : list item) :
  forall h h',
    feed w items h = Ok h' ->
    items = map Send (sent items) /\
    exists contents,
      Forall2 (fun f data => ReadFile w f = inr data) (sent items) contents /\
      h' = fold_left Adler32.Write contents h.
Proof.
  induction items as [|[f | path e] items IH]; intros h h' H; cbn in H.
  - injection H as <-. split; [reflexivity|]. exists []. split; [constructor | reflexivity].
  - destruct (ReadFile w f) as [e | data] eqn:E; [discriminate|].
    apply IH in H as (Hitems & contents & Hall & Hh).
    split; [cbn; f_equal; exact Hitems|].
    exists (data :: contents). split; [cbn; now constructor | exact Hh].
  - discriminate.
Qed.





(** With nothing to read, [update] leaves the fresh accumulator. *)
Lemma update_nothing (w : World) (p : t) :
  enumerate w p = [] ->
  update w (Some p) =
    Ok (Some (mk (files p) (dirs p) (Adler32.Sum32 (hash p)) Adler32.Reset)).
Proof. intros H. unfold update. now rewrite H. Qed.

Lemma enumerate_bare (w : World) (p : t) :
  files p = [] ->
  (forall dir, In dir (dirs p) -> bare (Tree w dir) = true) ->
  enumerate w p = [].
Proof.
  intros Hf Hd. unfold enumerate. rewrite Hf. cbn.
  apply flat_map_all_nil. intros dir Hdir. now apply bare_walk, Hd.
Qed.
End PathFacts.

(** ** The loop *)
Section LoopFacts.
Context {lib : GoLib}.

Lemma cycle_sleeps (delay : Z) (e : Env) (s : State) :
  exists rest, events (cycle delay e s) = Sleep delay :: rest.
Proof.
  unfold cycle.
  destruct (WatchPaths.update (world e) (paths s)) as [p'|code text];
    [|now eexists].
  destruct (WatchPaths.hasChanged p'); cbn [negb]; [|now eexists].
  destruct (report _ _); cbn; now eexists.
Qed.

(** The command is executed exactly in the cycles in which [update]
    comes back and [hasChanged] holds. *)
Lemma executed_cycle (delay : Z) (e : Env) (s : State) :
  executed (cycle delay e s) = true <->
  exists p', WatchPaths.update (world e) (paths s) = Ok p' /\
             WatchPaths.hasChanged p' = true.
Proof.
  unfold cycle.
  destruct (WatchPaths.update (world e) (paths s)) as [p'|code text].
  - destruct (WatchPaths.hasChanged p') eqn:E; cbn [negb].
    + split; [intros _; now exists p'|intros _].
      destruct (report _ _); reflexivity.
    + split; [discriminate|]. intros (q & Hq & Hc). congruence.
  - split; [discriminate|]. intros (q & Hq & _). discriminate.
Qed.

(** [first] is cleared by the first cycle that executes the command,
    and by nothing else. *)
Lemma cycle_first (delay : Z) (e : Env) (s s' : State) (evs : list event) :
  cycle delay e s = Continue evs s' ->
  first s' = first s && negb (existsb isRun evs).
Proof.
  unfold cycle.
  destruct (WatchPaths.update (world e) (paths s)) as [p'|code text];
    [|discriminate].
  destruct (WatchPaths.hasChanged p'); cbn [negb].
  - destruct (report _ _); [|discriminate].
    intros H. injection H as <- <-. cbn. now rewrite andb_false_r.
  - intros H. injection H as <- <-. cbn. now rewrite andb_true_r.
Qed.

Lemma loop_first (delay : Z) (envs : list Env) :
  forall (s s' : State) (evs : list event),
    loop delay envs s = Continue evs s' ->
    first s' = first s && negb (existsb isRun evs).
Proof.
  induction envs as [|e envs IH]; intros s s' evs H; cbn in H.
  - injection H as <- <-. cbn. now rewrite andb_true_r.
  - destruct (cycle delay e s) as [evs1 s1|] eqn:E1; [|discriminate].
    destruct (loop delay envs s1) as [evs2 s2|] eqn:E2; [|discriminate].
    injection H as <- <-.
    rewrite (IH _ _ _ E2), (cycle_first _ _ _ _ _ E1).
    rewrite existsb_app, negb_orb. now rewrite andb_assoc.
Qed.

Lemma start_state (f : Flags) (w : World) (out : string) (s : State) :
  start f w = Ok (out, s) ->
  WatchPaths.NewWatchPaths w (pathStr f) = Ok (paths s) /\
  first s = true /\ WatchCommand.buf (cmd s) = [].
Proof.
  unfold start. destruct (help f); [discriminate|].
  destruct (arguments f) as [|name args]; [discriminate|].
  unfold bind.
  destruct (WatchPaths.NewWatchPaths w (pathStr f)) as [p|]; [|discriminate].
  destruct (Screen.screens (scrType f)); [|discriminate].
  intros H. injection H as _ <-. cbn. auto.
Qed.
End LoopFacts.

(** ** The model on small inputs *)
Section Examples.
#[local] Existing Instance plainLib.

Example checksum_Wikipedia :
  Adler32.Checksum (Demo.bytes "Wikipedia") = 300286872.
Proof. reflexivity. Qed.

Example checksum_empty : Adler32.Checksum [] = 1.
Proof. reflexivity. Qed.

Example fields_example : Fields "  notes   data " = ["notes"; "data"].
Proof. reflexivity. Qed.

Example trim_example : TrimSpace "  a b  " = "a b".
Proof. reflexivity. Qed.

Example duration_minute : Duration.String_ (Duration.ofSeconds 60) = "1m0s".
Proof. reflexivity. Qed.

Example duration_hour : Duration.String_ (Duration.ofSeconds 3661) = "1h1m1s".
Proof. reflexivity. Qed.

Example duration_fraction : Duration.String_ 1500000000 = "1.5s".
Proof. reflexivity. Qed.

Example duration_zero : Duration.String_ 0 = "0s".
Proof. reflexivity. Qed.

Example walk_data :
  WatchPaths.walk "data" Demo.dataTree =
    [Send "data/Makefile"; Send "data/b.txt";
     Send "data/sub/a.txt"; Send "data/sub/z.txt"].
Proof. reflexivity. Qed.

Example new_watch_paths :
  WatchPaths.NewWatchPaths Demo.world "notes data"
    = Ok (Some (WatchPaths.mk ["notes"] ["data"] 0 1)).
Proof. reflexivity. Qed.

Example new_watch_paths_invalid :
  WatchPaths.NewWatchPaths Demo.world "notes nope"
    = Exit 1 ("ERROR: invalid path " ++ dquote ++ "nope" ++ dquote
              ++ ": no such file or directory" ++ newline).
Proof. reflexivity. Qed.

Example first_cycle_hello :
  cycle Demo.second (Demo.env Demo.world Demo.hello) Demo.state0 =
    Continue [Sleep Demo.second; Run "echo" ["hello"];
              Frame ("WATCH echo [12:00:00]" ++ newline ++ newline ++ "hello")]
             Demo.state1.
Proof. vm_compute. reflexivity. Qed.

Example cycle_exit3_status :
  events (cycle Demo.second (Demo.env Demo.world Demo.exit3) Demo.state1) =
    [Sleep Demo.second; Run "echo" ["hello"];
     Frame ("WATCH echo [12:00:00 exit code 3]" ++ newline ++ newline ++ "oops")].
Proof. vm_compute. reflexivity. Qed.

Example cycle_missing_command :
  cycle Demo.second (Demo.env Demo.world Demo.missing) Demo.state0 =
    Stop [Sleep Demo.second; Run "echo" ["hello"]] 1
      ("ERROR: executing " ++ dquote ++ "echo" ++ dquote ++ " with args ["
       ++ dquote ++ "hello" ++ dquote ++ "]: exec: no such file" ++ newline).
Proof. vm_compute. reflexivity. Qed.

Example unknown_screen :
  start (mkFlags false false 1 5 EmptyString "curses" ["echo"]) Demo.world
    = Exit 2 ("Unknown screen type: curses" ++ newline).
Proof. reflexivity. Qed.
End Examples.

(** ** The properties of the specification *)
Section Claims.
Context {lib : GoLib}.

(** C1. In a cycle that executes the command: when [cmd.err] is an
    exit error the loop goes on to the next cycle with the status
    text ["exit code <code>"] pushed to the screen; when it is the
    missed deadline the process exits with status 1 and the message
    ["timeout after <timeout>"]; any other error also ends the process
    with status 1.  (With no error the loop goes on as well.) *)
Theorem execution_error_handling (delay : Z) (e : Env) (s : State) :
  executed (cycle delay e s) = true ->
  match WatchCommand.err (WatchCommand.run (cmd s) (exec e)) with
  | Some (ExitError code) =>
      exists evs s',
        cycle delay e s = Continue evs s' /\
        Screen.status (screen s') = "exit code " ++ itoa code
  | Some DeadlineExceeded =>
      exists evs,
        cycle delay e s =
          Stop evs 1
            (bailText ("timeout after "
                       ++ Duration.String_ (WatchCommand.timeout (cmd s))))
  | Some (OtherError msg) =>
      exists evs text, cycle delay e s = Stop evs 1 text
  | None => exists evs s', cycle delay e s = Continue evs s'
  end.
Proof.
  intros H. apply executed_cycle in H as (p' & Hu & Hc).
  unfold cycle. rewrite Hu, Hc. cbn [negb].
  unfold report.
  destruct (WatchCommand.err (WatchCommand.run (cmd s) (exec e)))
    as [[code | | msg]|].
  - eexists _, _. split; reflexivity.
  - eexists. reflexivity.
  - eexists _, _. reflexivity.
  - destruct (isEmpty _); eexists _, _; reflexivity.
Qed.

(** C2. After [run()] the missed deadline takes precedence: if the
    deadline had passed, [err] is the deadline error whatever
    [cmd.Run()] returned; if it had not, [err] is what [cmd.Run()]
    returned (exit error, other error or nil) and never the deadline
    error. *)
Theorem run_outcome_precedence (c : WatchCommand.t) (x : execution) :
  let c' := WatchCommand.run c x in
  (deadlinePassed x = true -> WatchCommand.err c' = Some DeadlineExceeded) /\
  (deadlinePassed x = false ->
     match runErr x with
     | Some (RunExit code) => WatchCommand.err c' = Some (ExitError code)
     | Some (RunOther msg) => WatchCommand.err c' = Some (OtherError msg)
     | None => WatchCommand.err c' = None
     end) /\
  (WatchCommand.err c' <> Some DeadlineExceeded -> deadlinePassed x = false).
Proof.
  cbn. destruct (deadlinePassed x); repeat split; try congruence.
  intros _. now destruct (runErr x) as [[code|msg]|].
Qed.

(** C3. A cycle with a watcher whose [hasChanged()] is false after
    [update()] does nothing but sleep: the command is not executed, no
    frame is written, only the watcher's state is new, and the next
    cycle starts by sleeping for the delay again. *)
Theorem unchanged_paths_skip_cycle
    (delay : Z) (e : Env) (s : State)
    (wp : WatchPaths.t) (p' : option WatchPaths.t) :
  paths s = Some wp ->
  WatchPaths.update (world e) (Some wp) = Ok p' ->
  WatchPaths.hasChanged p' = false ->
  cycle delay e s =
    Continue [Sleep delay] (mkState (cmd s) p' (screen s) (first s)) /\
  executed (cycle delay e s) = false /\
  drawn (cycle delay e s) = false /\
  (forall e', exists rest,
      events (cycle delay e' (mkState (cmd s) p' (screen s) (first s)))
      = Sleep delay :: rest).
Proof.
  intros Hp Hu Hc.
  assert (E : cycle delay e s =
              Continue [Sleep delay] (mkState (cmd s) p' (screen s) (first s))).
  { unfold cycle. now rewrite Hp, Hu, Hc. }
  rewrite E. repeat split; try reflexivity.
  intros e'. apply cycle_sleeps.
Qed.

(** C4, as the code has it.  In a cycle that executes the command and
    is not ended by a fatal error, a frame is written exactly when
    [hasChanged()] holds after the run or no earlier cycle since the
    start has executed the command; the frame is the whole buffer,
    under the status just set. *)
Theorem redraw_rule
    (delay : Z) (envs : list Env) (s0 s s' : State)
    (hist evs : list event) (e : Env) :
  first s0 = true ->
  loop delay envs s0 = Continue hist s ->
  cycle delay e s = Continue evs s' ->
  executed (cycle delay e s) = true ->
  let c := WatchCommand.run (cmd s) (exec e) in
  let redraw := WatchCommand.hasChanged c || negb (existsb isRun hist) in
  cmd s' = c /\
  drawn (cycle delay e s) = redraw /\
  evs = ([Sleep delay; Run (WatchCommand.name c) (WatchCommand.args c)]
         ++ (if redraw
             then [Frame (Screen.Write (screen s') (clock e) (written (exec e)))]
             else []))%list.
Proof.
  intros H0 Hloop Hcycle Hexec c redraw.
  apply loop_first in Hloop. rewrite H0 in Hloop. cbn [andb] in Hloop.
  apply executed_cycle in Hexec as (p' & Hu & Hc).
  subst redraw. rewrite <- Hloop. rewrite Hcycle.
  unfold cycle in Hcycle. rewrite Hu, Hc in Hcycle. cbn [negb] in Hcycle.
  fold c in Hcycle.
  destruct (report c (screen s)) as [scr|]; [|discriminate].
  injection Hcycle as <- <-. cbn [cmd screen].
  split; [reflexivity|].
  destruct (WatchCommand.hasChanged c || first s); split; reflexivity.
Qed.

(** C5. Without watch paths there is no watcher; [update] leaves it
    absent however often it is called, [hasChanged()] is true, and
    every cycle executes the command. *)
Theorem absent_watcher_always_changed :
  (forall w, WatchPaths.NewWatchPaths w EmptyString = Ok None) /\
  (forall ws, updates ws None = Ok None) /\
  WatchPaths.hasChanged None = true /\
  (forall delay e s,
      paths s = None ->
      executed (cycle delay e s) = true /\
      forall evs s', cycle delay e s = Continue evs s' -> paths s' = None) /\
  (forall delay envs s evs s',
      paths s = None ->
      loop delay envs s = Continue evs s' ->
      List.length (filter isRun evs) = List.length envs).
Proof.
  assert (Hcycle : forall delay e s,
             paths s = None ->
             executed (cycle delay e s) = true /\
             forall evs s', cycle delay e s = Continue evs s' ->
               paths s' = None /\ List.length (filter isRun evs) = 1%nat).
  { intros delay e s Hp. split.
    - apply executed_cycle. exists None. now rewrite Hp.
    - intros evs s'. unfold cycle. rewrite Hp. cbn.
      destruct (report _ _); [|discriminate].
      intros H. injection H as <- <-. split; [reflexivity|].
      now destruct (_ || _). }
  split; [reflexivity|]. split; [|split; [reflexivity|split]].
  - intros ws. induction ws as [|w ws IH]; [reflexivity | exact IH].
  - intros delay e s Hp. split; [now apply Hcycle|].
    intros evs s' H. now apply (Hcycle delay e s) in H.
  - intros delay envs. induction envs as [|e envs IH]; intros s evs s' Hp H; cbn in H.
    + now injection H as <- <-.
    + destruct (cycle delay e s) as [evs1 s1|] eqn:E1; [|discriminate].
      destruct (loop delay envs s1) as [evs2 s2|] eqn:E2; [|discriminate].
      injection H as <- <-.
      apply (Hcycle delay e s Hp) in E1 as [Hp1 Hn].
      rewrite filter_app, length_app, Hn. cbn. f_equal.
      now apply (IH s1 evs2 s2).
Qed.

(** C6. A watcher built by [main] over directories that hold no
    regular file (and no explicitly named file): after the first
    [update()] the previous and the current fingerprint are equal,
    [hasChanged()] is false, and the first cycle sleeps without
    executing the command. *)
Theorem empty_watch_set_first_cycle
    (f : Flags) (w0 : World) (out : string) (s : State)
    (wp : WatchPaths.t) (delay : Z) (e : Env) :
  start f w0 = Ok (out, s) ->
  paths s = Some wp ->
  WatchPaths.files wp = [] ->
  (forall dir, In dir (WatchPaths.dirs wp) -> bare (Tree (world e) dir) = true) ->
  exists wp',
    WatchPaths.update (world e) (Some wp) = Ok (Some wp') /\
    WatchPaths.prev wp' = Adler32.Sum32 (WatchPaths.hash wp') /\
    WatchPaths.hasChanged (Some wp') = false /\
    cycle delay e s =
      Continue [Sleep delay] (mkState (cmd s) (Some wp') (screen s) (first s)) /\
    executed (cycle delay e s) = false.
Proof.
  intros Hstart Hp Hf Hd.
  apply start_state in Hstart as (Hnew & _ & _). rewrite Hp in Hnew.
  apply NewWatchPaths_some in Hnew as (_ & _ & _ & Hh).
  pose proof (update_nothing (world e) wp (enumerate_bare _ _ Hf Hd)) as Hu.
  rewrite Hh in Hu. eexists. split; [exact Hu|].
  split; [reflexivity|]. split; [reflexivity|].
  unfold cycle. rewrite Hp, Hu. cbn. split; reflexivity.
Qed.

(** C7, as the code has it.  After the first [run()] (the buffer was
    empty before), [hasChanged()] is false exactly when the checksum
    of the captured output is 1, the checksum of the empty buffer.  It
    is false for empty output and true for every non-empty output of
    at most 256 bytes. *)
Theorem first_run_changed (c : WatchCommand.t) (x : execution) :
  WatchCommand.buf c = [] ->
  let c' := WatchCommand.run c x in
  (WatchCommand.hasChanged c' = false <-> Adler32.Checksum (written x) = 1) /\
  (written x = [] -> WatchCommand.hasChanged c' = false) /\
  (written x <> [] -> Z.of_nat (List.length (written x)) <= 256 ->
     WatchCommand.hasChanged c' = true).
Proof.
  intros Hb c'.
  assert (E : WatchCommand.hasChanged c'
              = negb (1 =? Adler32.Checksum (written x))).
  { unfold c', WatchCommand.hasChanged, WatchCommand.run. cbn. now rewrite Hb. }
  rewrite E. split; [|split].
  - rewrite negb_false_iff, Z.eqb_eq. split; congruence.
  - intros ->. reflexivity.
  - intros Hne Hlen. rewrite negb_true_iff, Z.eqb_neq.
    intros H. now apply (Adler32Facts.Checksum_short (written x)).
Qed.

(** C8. Writing chunks one at a time into a fresh accumulator gives
    the same 32-bit value as writing their concatenation in one call,
    which is the checksum of the concatenation; so do ["foo"] and
    ["bar"] against ["foobar"]. *)
Theorem streaming_checksum (chunks : list (list byte)) :
  Adler32.Sum32 (fold_left Adler32.Write chunks Adler32.New)
    = Adler32.Sum32 (Adler32.Write Adler32.New (List.concat chunks)) /\
  Adler32.Sum32 (fold_left Adler32.Write chunks Adler32.New)
    = Adler32.Checksum (List.concat chunks) /\
  0 <= Adler32.Sum32 (fold_left Adler32.Write chunks Adler32.New) < 2 ^ 32 /\
  Adler32.Sum32
    (fold_left Adler32.Write [Demo.bytes "foo"; Demo.bytes "bar"] Adler32.New)
    = Adler32.Checksum (Demo.bytes "foobar").
Proof.
  assert (E : fold_left Adler32.Write chunks Adler32.New
              = Adler32.Write Adler32.New (List.concat chunks))
    by (apply Adler32Facts.write_chunks; cbv; split; congruence).
  unfold Adler32.Sum32. rewrite E.
  split; [reflexivity|]. split; [reflexivity|]. split; [|reflexivity].
  apply Adler32Facts.update_range. cbv; split; congruence.
Qed.


(** C10. A path string of white space only gives a watcher with no
    files and no directories, not the absent one.  After every
    [update()] its two fingerprints are equal and [hasChanged()] is
    false, and the loop only ever sleeps: no cycle executes the
    command. *)
Theorem blank_path_string_never_runs (w0 : World) (pathStr : string) :
  isEmpty pathStr = false ->
  allSpace pathStr = true ->
  let wp := WatchPaths.mk [] [] 0 Adler32.New in
  WatchPaths.NewWatchPaths w0 pathStr = Ok (Some wp) /\
  (forall ws, ws <> [] ->
     exists wp',
       updates ws (Some wp) = Ok (Some wp') /\
       WatchPaths.files wp' = [] /\ WatchPaths.dirs wp' = [] /\
       WatchPaths.prev wp' = Adler32.Sum32 (WatchPaths.hash wp') /\
       WatchPaths.hasChanged (Some wp') = false) /\
  (forall delay envs s,
     paths s = Some wp ->
     exists s',
       loop delay envs s = Continue (repeat (Sleep delay) (List.length envs)) s' /\
       executed (loop delay envs s) = false).
Proof.
  intros Hne Hsp wp.
  set (wp1 := WatchPaths.mk [] [] 1 1).
  assert (Hu0 : forall w, WatchPaths.update w (Some wp) = Ok (Some wp1))
    by reflexivity.
  assert (Hu1 : forall w, WatchPaths.update w (Some wp1) = Ok (Some wp1))
    by reflexivity.
  assert (Hus : forall ws, updates ws (Some wp1) = Ok (Some wp1)).
  { induction ws as [|w ws IH]; [reflexivity|]. cbn [updates]. now rewrite Hu1. }
  split; [|split].
  - unfold WatchPaths.NewWatchPaths. rewrite Hne. unfold Fields.
    now rewrite fieldsFrom_blank.
  - intros [|w ws] Hws; [congruence|]. exists wp1.
    cbn [updates]. rewrite Hu0. cbn [bind]. rewrite Hus. now repeat split.
  - intros delay envs s Hp.
    assert (Hc : forall e s, paths s = Some wp \/ paths s = Some wp1 ->
               cycle delay e s =
                 Continue [Sleep delay]
                   (mkState (cmd s) (Some wp1) (screen s) (first s))).
    { intros e s1 [H|H]; unfold cycle; rewrite H; reflexivity. }
    assert (Hl : forall envs s, paths s = Some wp \/ paths s = Some wp1 ->
               exists s', loop delay envs s =
                 Continue (repeat (Sleep delay) (List.length envs)) s').
    { clear envs s Hp. induction envs as [|e envs IH]; intros s Hs.
      - now eexists.
      - cbn [loop]. rewrite (Hc e s Hs).
        destruct (IH (mkState (cmd s) (Some wp1) (screen s) (first s)))
          as (s' & Hs'); [now right|].
        rewrite Hs'. now eexists. }
    destruct (Hl envs s) as (s' & Hs'); [now left|].
    exists s'. split; [exact Hs'|]. rewrite Hs'. unfold executed. cbn [events].
    clear. induction (List.length envs) as [|n IHn]; [reflexivity | exact IHn].
Qed.
End Claims.

(** ** More about the helpers and the strings *)

Lemma endsWithNewline_app (a b : string) :
  endsWithNewline (a ++ b) =
    if isEmpty b then endsWithNewline a else endsWithNewline b.
Proof.
  induction a as [|c a IH]; cbn [append].
  - destruct b as [|d b]; reflexivity.
  - cbn [endsWithNewline]. rewrite IH.
    destruct (a ++ b) as [|d r] eqn:E.
    + destruct a; [|discriminate]. cbn in E. subst b. reflexivity.
    + destruct a as [|a0 a']; [|reflexivity].
      cbn in E. subst b. reflexivity.
Qed.

Lemma str_app_assoc (a b c : string) : (a ++ b) ++ c = a ++ (b ++ c).
Proof. induction a as [|x a IH]; cbn; [reflexivity | now rewrite IH]. Qed.

Lemma str_app_nil_r (a : string) : a ++ EmptyString = a.
Proof. induction a as [|x a IH]; cbn; [reflexivity | now rewrite IH]. Qed.

(** The shared tail of [bail], [warn] and [debug]. *)
Lemma heading_newline (heading msg : string) :
  isEmpty heading = false ->
  endsWithNewline heading = false ->
  (if endsWithNewline (heading ++ msg)
   then heading ++ msg else (heading ++ msg) ++ newline)
  = heading ++ msg ++ (if endsWithNewline msg then EmptyString else newline).
Proof.
  intros Hne Hh. rewrite endsWithNewline_app.
  destruct msg as [|c m]; cbn [isEmpty].
  - rewrite Hh. cbn [endsWithNewline]. now rewrite str_app_assoc.
  - destruct (endsWithNewline (String c m)).
    + now rewrite str_app_nil_r.
    + now rewrite str_app_assoc.
Qed.

Lemma prefix_app (a b : string) : String.prefix a (a ++ b) = true.
Proof.
  induction a as [|c a IH]; cbn; [now destruct b|].
  destruct (ascii_dec c c); [exact IH | congruence].
Qed.

Lemma bailText_eq (msg : string) :
  bailText msg
  = "ERROR: " ++ msg ++ (if endsWithNewline msg then EmptyString else newline).
Proof. unfold bailText. now apply heading_newline. Qed.

Lemma bailText_fatal (msg : string) : fatal 1 (bailText msg).
Proof.
  unfold fatal. split; [reflexivity|]. rewrite bailText_eq. split.
  - apply prefix_app.
  - destruct (endsWithNewline msg) eqn:E.
    + rewrite str_app_nil_r, endsWithNewline_app.
      destruct msg; [discriminate E | exact E].
    + rewrite <- str_app_assoc, endsWithNewline_app. reflexivity.
Qed.

(** X1. The text of [bail], [warn] and [debug] is the heading, the
    message and one newline, which is added only when the message does
    not end in one; [warn] and [debug] print nothing without [-v]; the
    text of [bail] always ends in a newline. *)
Theorem helper_text_newline (verbose : bool) (msg : string) :
  bailText msg
    = "ERROR: " ++ msg ++ (if endsWithNewline msg then EmptyString else newline) /\
  warn verbose msg
    = (if verbose
       then "ERROR: " ++ msg ++ (if endsWithNewline msg then EmptyString else newline)
       else EmptyString) /\
  debug verbose msg
    = (if verbose
       then "DEBUG: " ++ msg ++ (if endsWithNewline msg then EmptyString else newline)
       else EmptyString) /\
  endsWithNewline (bailText msg) = true.
Proof.
  split; [apply bailText_eq|]. split; [|split].
  - unfold warn. destruct verbose; [|reflexivity]. now apply heading_newline.
  - unfold debug. destruct verbose; [|reflexivity]. now apply heading_newline.
  - apply bailText_fatal.
Qed.



(** ** More about the command and the loop *)
Section CommandFacts.
Context {lib : GoLib}.

(** A cycle that executes the command and goes on, taken apart. *)
Lemma cycle_ran (delay : Z) (e : Env) (s s' : State) (evs : list event) :
  cycle delay e s = Continue evs s' ->
  executed (cycle delay e s) = true ->
  exists p' scr,
    WatchPaths.update (world e) (paths s) = Ok p' /\
    report (WatchCommand.run (cmd s) (exec e)) (screen s) = Ok scr /\
    s' = mkState (WatchCommand.run (cmd s) (exec e)) p' scr false /\
    evs = ([Sleep delay;
            Run (WatchCommand.name (cmd s)) (WatchCommand.args (cmd s))]
           ++ (if WatchCommand.hasChanged (WatchCommand.run (cmd s) (exec e))
                  || first s
               then [Frame (Screen.Write scr (clock e) (written (exec e)))]
               else []))%list.
Proof.
  intros Hc Hx. apply executed_cycle in Hx as (p' & Hu & Hch).
  unfold cycle in Hc. rewrite Hu, Hch in Hc. cbn [negb] in Hc.
  destruct (report _ _) as [scr|] eqn:Hr; [|discriminate].
  injection Hc as <- <-. exists p', scr. repeat split; assumption || reflexivity.
Qed.


(** X3. [hasChanged()] after a run compares the checksums of the last
    two outputs only; a cycle whose execution writes what the previous
    executed cycle wrote draws no frame. *)
Theorem same_output_no_redraw :
  (forall c x1 x2,
      WatchCommand.hasChanged (WatchCommand.run (WatchCommand.run c x1) x2)
      = negb (Adler32.Checksum (written x1) =? Adler32.Checksum (written x2))) /\
  (forall delay e1 e2 s evs s1,
      cycle delay e1 s = Continue evs s1 ->
      executed (cycle delay e1 s) = true ->
      written (exec e2) = written (exec e1) ->
      drawn (cycle delay e2 s1) = false).
Proof.
  split; [reflexivity|].
  intros delay e1 e2 s evs s1 Hc Hx Hw.
  destruct (cycle_ran _ _ _ _ _ Hc Hx) as (p' & scr & _ & _ & -> & _).
  unfold cycle. cbn [paths cmd screen first].
  destruct (WatchPaths.update (world e2) p') as [p2|]; [|reflexivity].
  destruct (WatchPaths.hasChanged p2); cbn [negb]; [|reflexivity].
  destruct (report _ _); [|reflexivity].
  replace (WatchCommand.hasChanged _) with false; [reflexivity|].
  unfold WatchCommand.hasChanged, WatchCommand.run.
  cbn [WatchCommand.prev WatchCommand.buf]. rewrite Hw.
  now rewrite Z.eqb_refl.
Qed.
End CommandFacts.

(** ** Adler-32: edits that are always seen *)
Module Adler32Edits.
Import Adler32 Adler32Facts.

Lemma byteZ_inj (x y : byte) : byteZ x = byteZ y -> x = y.
Proof.
  unfold byteZ. intros H. apply N2Z.inj in H.
  apply (f_equal Byte.of_N) in H.
  rewrite !Byte.of_to_N in H. now injection H.
Qed.

Lemma bsum_app (a b : list byte) : bsum (a ++ b) = bsum a + bsum b.
Proof.
  induction a as [|x a IH]; [reflexivity|].
  cbn [app bsum fold_right]. fold (bsum (a ++ b)). fold (bsum a). lia.
Qed.

Lemma wsum_app (a b : list byte) :
  wsum (a ++ b) = wsum a + Z.of_nat (List.length b) * bsum a + wsum b.
Proof.
  induction a as [|x a IH]; [cbn; lia|].
  cbn [app wsum bsum fold_right List.length]. fold (bsum a).
  rewrite IH, length_app, !Nat2Z.inj_succ, Nat2Z.inj_add. lia.
Qed.

(** Equal checksums have equal halves. *)
Lemma Checksum_halves (p q : list byte) :
  Checksum p = Checksum q ->
  (1 + bsum p) mod mod_ = (1 + bsum q) mod mod_ /\
  (Z.of_nat (List.length p) + wsum p) mod mod_
  = (Z.of_nat (List.length q) + wsum q) mod mod_.
Proof.
  rewrite !Checksum_closed. unfold mod_.
  pose proof (Z.mod_pos_bound (1 + bsum p) 65521).
  pose proof (Z.mod_pos_bound (1 + bsum q) 65521).
  pose proof (Z.mod_pos_bound (Z.of_nat (List.length p) + wsum p) 65521).
  pose proof (Z.mod_pos_bound (Z.of_nat (List.length q) + wsum q) 65521).
  lia.
Qed.

Lemma mod_shift_differs (a d : Z) :
  d <> 0 -> - 255 <= d <= 255 -> (a + d) mod mod_ <> a mod mod_.
Proof.
  unfold mod_. intros Hd Hr E.
  pose proof (Z.div_mod (a + d) 65521). pose proof (Z.div_mod a 65521).
  assert (d = 65521 * ((a + d) / 65521 - a / 65521)) by lia.
  nia.
Qed.

(** Replacing one byte changes the checksum. *)
Lemma Checksum_replace (a b : list byte) (x y : byte) :
  x <> y -> Checksum (a ++ x :: b) <> Checksum (a ++ y :: b).
Proof.
  intros Hxy E. apply Checksum_halves in E as [E _].
  rewrite !bsum_app in E. cbn [bsum fold_right] in E. fold (bsum b) in E.
  pose proof (byteZ_range x). pose proof (byteZ_range y).
  assert (byteZ x <> byteZ y) by (intros K; now apply byteZ_inj in K).
  apply (mod_shift_differs (1 + (bsum a + (byteZ y + bsum b))) (byteZ x - byteZ y));
    [lia | lia |].
  rewrite <- E. f_equal. lia.
Qed.

(** Swapping two neighbours that differ changes the checksum. *)
Lemma Checksum_swap (a b : list byte) (x y : byte) :
  x <> y -> Checksum (a ++ x :: y :: b) <> Checksum (a ++ y :: x :: b).
Proof.
  intros Hxy E. apply Checksum_halves in E as [_ E].
  rewrite !wsum_app, !length_app in E.
  cbn [wsum List.length] in E.
  rewrite !Nat2Z.inj_add, !Nat2Z.inj_succ in E.
  pose proof (byteZ_range x). pose proof (byteZ_range y).
  assert (byteZ x <> byteZ y) by (intros K; now apply byteZ_inj in K).
  set (n := Z.of_nat (List.length b)) in *.
  set (k := Z.of_nat (List.length a)) in *.
  apply (mod_shift_differs
           (k + Z.succ (Z.succ n)
            + (wsum a + Z.succ (Z.succ n) * bsum a
               + (Z.succ (Z.succ n) * byteZ y + (Z.succ n * byteZ x + wsum b))))
           (byteZ x - byteZ y)); [lia | lia |].
  rewrite <- E. f_equal. lia.
Qed.
End Adler32Edits.

Section EditFacts.
(** X4. When the new output differs from the last one in exactly one
    byte, or by two unequal neighbours swapped, [hasChanged()] is true:
    the checksum cannot hide such an edit. *)
Theorem small_edits_are_seen
    (c : WatchCommand.t) (x1 x2 : execution) (a b : list byte) (x y : byte) :
  x <> y ->
  (written x1 = (a ++ x :: b)%list /\ written x2 = (a ++ y :: b)%list) \/
  (written x1 = (a ++ x :: y :: b)%list /\ written x2 = (a ++ y :: x :: b)%list) ->
  WatchCommand.hasChanged (WatchCommand.run (WatchCommand.run c x1) x2) = true.
Proof.
  intros Hxy H.
  unfold WatchCommand.hasChanged, WatchCommand.run.
  cbn [WatchCommand.prev WatchCommand.buf].
  rewrite negb_true_iff, Z.eqb_neq.
  destruct H as [[-> ->] | [-> ->]].
  - now apply Adler32Edits.Checksum_replace.
  - now apply Adler32Edits.Checksum_swap.
Qed.
End EditFacts.

(** ** More about the watcher *)
Section WatcherFacts.
Context {lib : GoLib}.
Import WatchPaths.

Lemma readAll_unique (w : World) (files : list string) :
  forall c1 c2, readAll w files c1 -> readAll w files c2 -> c1 = c2.
Proof.
  unfold readAll. induction files as [|f files IH]; intros c1 c2 H1 H2;
    inversion H1; inversion H2; subst; [reflexivity|].
  f_equal; [congruence | now apply IH].
Qed.

(** What an [update] that comes back leaves behind. *)
Lemma update_some (w : World) (wp : t) (p' : option t) :
  update w (Some wp) = Ok p' ->
  exists contents,
    readAll w (sent (enumerate w wp)) contents /\
    p' = Some (mk (files wp) (dirs wp) (Adler32.Sum32 (hash wp))
                  (Adler32.Checksum (List.concat contents))).
Proof.
  unfold update, bind. intros H.
  destruct (feed w _ _) as [h|] eqn:E; [|discriminate].
  injection H as <-. apply feed_ok in E as (_ & contents & Hall & ->).
  exists contents. split; [exact Hall|].
  rewrite Adler32Facts.write_chunks by (cbv; split; congruence). reflexivity.
Qed.

(** X5. When an [update()] came back and the file system is the same
    at the next one, that one comes back too, [hasChanged()] is false
    and the cycle only sleeps. *)
Theorem unchanged_files_no_change
    (w : World) (wp : t) (p1 : option t) (delay : Z) (e : Env) (s : State) :
  update w (Some wp) = Ok p1 ->
  world e = w ->
  paths s = p1 ->
  exists p2,
    update w p1 = Ok p2 /\
    hasChanged p2 = false /\
    cycle delay e s = Continue [Sleep delay] (mkState (cmd s) p2 (screen s) (first s)).
Proof.
  intros H1 Hw Hp.
  destruct (update_some _ _ _ H1) as (c1 & Hc1 & ->).
  set (wp1 := mk (files wp) (dirs wp) (Adler32.Sum32 (hash wp))
                 (Adler32.Checksum (List.concat c1))).
  assert (H2 : exists p2, update w (Some wp1) = Ok p2).
  { unfold update, bind in H1 |- *.
    change (enumerate w wp1) with (enumerate w wp).
    destruct (feed w (enumerate w wp) Adler32.Reset) as [h|] eqn:E; [|discriminate].
    now eexists. }
  destruct H2 as (p2 & H2). exists p2. split; [exact H2|].
  destruct (update_some _ _ _ H2) as (c2 & Hc2 & Ep2).
  change (enumerate w wp1) with (enumerate w wp) in Hc2.
  rewrite (readAll_unique _ _ _ _ Hc2 Hc1) in Ep2.
  assert (Hch : hasChanged p2 = false).
  { rewrite Ep2. unfold hasChanged, Adler32.Sum32. cbn [prev hash wp1].
    now rewrite Z.eqb_refl. }
  split; [exact Hch|].
  unfold cycle. rewrite Hw, Hp. fold wp1. now rewrite H2, Hch.
Qed.

(** X6. After two [update()]s, [hasChanged()] compares the checksums
    of everything read, end to end, in the two file system states: when
    the concatenations agree (bytes moved from one file to the next,
    say) no change is reported. *)
Theorem change_is_judged_on_concatenation
    (w1 w2 : World) (wp : t) (p1 p2 : option t) (c1 c2 : list (list byte)) :
  update w1 (Some wp) = Ok p1 ->
  update w2 p1 = Ok p2 ->
  readAll w1 (sent (enumerate w1 wp)) c1 ->
  readAll w2 (sent (enumerate w2 wp)) c2 ->
  hasChanged p2
    = negb (Adler32.Checksum (List.concat c1) =? Adler32.Checksum (List.concat c2)) /\
  (List.concat c1 = List.concat c2 -> hasChanged p2 = false).
Proof.
  intros H1 H2 Hc1 Hc2.
  destruct (update_some _ _ _ H1) as (d1 & Hd1 & ->).
  destruct (update_some _ _ _ H2) as (d2 & Hd2 & ->).
  change (enumerate w2 _) with (enumerate w2 wp) in Hd2.
  rewrite (readAll_unique _ _ _ _ Hd1 Hc1), (readAll_unique _ _ _ _ Hd2 Hc2).
  unfold hasChanged, Adler32.Sum32. cbn [prev hash].
  split; [reflexivity|]. intros ->. now rewrite Z.eqb_refl.
Qed.










End WatcherFacts.

Section FirstCycle.
Context {lib : GoLib}.

(** X15. When the files of a watcher built by [main] hold between 1
    and 256 bytes in all, the first [update()] reports a change and the
    first cycle executes the command. *)
Theorem watched_content_first_cycle
    (f : Flags) (w0 : World) (out : string) (s : State) (wp : WatchPaths.t)
    (delay : Z) (e : Env) (p' : option WatchPaths.t)
    (contents : list (list byte)) :
  start f w0 = Ok (out, s) ->
  paths s = Some wp ->
  WatchPaths.update (world e) (Some wp) = Ok p' ->
  readAll (world e) (WatchPaths.sent (WatchPaths.enumerate (world e) wp)) contents ->
  List.concat contents <> [] ->
  Z.of_nat (List.length (List.concat contents)) <= 256 ->
  WatchPaths.hasChanged p' = true /\ executed (cycle delay e s) = true.
Proof.
  intros Hstart Hp Hu Hc Hne Hlen.
  apply start_state in Hstart as (Hnew & _ & _). rewrite Hp in Hnew.
  apply NewWatchPaths_some in Hnew as (_ & _ & _ & Hh).
  assert (Hch : WatchPaths.hasChanged p' = true).
  { destruct (update_some _ _ _ Hu) as (d & Hd & ->).
    rewrite (readAll_unique _ _ _ _ Hd Hc).
    unfold WatchPaths.hasChanged, Adler32.Sum32. cbn [WatchPaths.prev WatchPaths.hash].
    rewrite Hh. rewrite negb_true_iff, Z.eqb_neq.
    intros K. symmetry in K. revert K. now apply Adler32Facts.Checksum_short. }
  split; [exact Hch|]. apply executed_cycle. exists p'. now rewrite Hp.
Qed.
End FirstCycle.

(** ** More about the loop *)
Section LoopShape.
Context {lib : GoLib}.

Lemma update_keeps_paths (w : World) (p p' : option WatchPaths.t) :
  WatchPaths.update w p = Ok p' ->
  option_map WatchPaths.files p' = option_map WatchPaths.files p /\
  option_map WatchPaths.dirs p' = option_map WatchPaths.dirs p.
Proof.
  destruct p as [wp|]; cbn.
  - unfold bind. destruct (WatchPaths.feed _ _ _); [|discriminate].
    intros H. now injection H as <-.
  - intros H. now injection H as <-.
Qed.

Lemma report_keeps_screen (c : WatchCommand.t) (scr scr' : Screen.t) :
  report c scr = Ok scr' ->
  Screen.backend scr' = Screen.backend scr /\ Screen.name scr' = Screen.name scr.
Proof.
  unfold report.
  destruct (WatchCommand.err c) as [[code| |msg]|]; try discriminate.
  - intros H. now injection H as <-.
  - destruct (isEmpty _); intros H; now injection H as <-.
Qed.

Lemma cycle_keeps (delay : Z) (e : Env) (s s' : State) (evs : list event) :
  cycle delay e s = Continue evs s' -> sameConfiguration s s'.
Proof.
  unfold cycle, sameConfiguration.
  destruct (WatchPaths.update (world e) (paths s)) as [p'|] eqn:Hu; [|discriminate].
  apply update_keeps_paths in Hu as [Hf Hd].
  destruct (WatchPaths.hasChanged p'); cbn [negb].
  - destruct (report _ _) as [scr|] eqn:Hr; [|discriminate].
    apply report_keeps_screen in Hr as [Hb Hn].
    intros H. injection H as _ <-. cbn. auto 10.
  - intros H. injection H as _ <-. cbn. auto 10.
Qed.

(** X10. The loop never changes the command's name, arguments and
    timeout, the screen's backend and name, or the watcher's files and
    directories (nor whether there is a watcher). *)
Theorem loop_keeps_configuration (delay : Z) (envs : list Env) :
  forall (s s' : State) (evs : list event),
    loop delay envs s = Continue evs s' -> sameConfiguration s s'.
Proof.
  induction envs as [|e envs IH]; intros s s' evs H; cbn in H.
  - injection H as _ <-. unfold sameConfiguration. auto 10.
  - destruct (cycle delay e s) as [evs1 s1|] eqn:E1; [|discriminate].
    destruct (loop delay envs s1) as [evs2 s2|] eqn:E2; [|discriminate].
    injection H as _ <-.
    apply cycle_keeps in E1. apply IH in E2.
    unfold sameConfiguration in *.
    destruct E1 as (A1 & A2 & A3 & A4 & A5 & A6 & A7).
    destruct E2 as (B1 & B2 & B3 & B4 & B5 & B6 & B7).
    repeat split; congruence.
Qed.

Lemma cycle_block (delay : Z) (e : Env) (s : State) :
  block delay (WatchCommand.name (cmd s)) (WatchCommand.args (cmd s))
        (events (cycle delay e s)).
Proof.
  unfold cycle, block.
  destruct (WatchPaths.update (world e) (paths s)) as [p'|]; [|now left].
  destruct (WatchPaths.hasChanged p'); cbn [negb]; [|now left].
  destruct (report _ _) as [scr|]; [|right; now left].
  cbn [events WatchCommand.run WatchCommand.name WatchCommand.args].
  destruct (_ || _); cbn [app]; [right; right; now eexists | right; now left].
Qed.

(** X11. The trace of the loop is one block per cycle begun, each
    the sleep alone, the sleep and the execution of the configured
    command, or these followed by one frame: no frame without an
    execution just before it, no execution without the sleep. *)
Theorem trace_is_made_of_cycles (delay : Z) (envs : list Env) :
  forall s : State,
    exists blocks,
      events (loop delay envs s) = List.concat blocks /\
      Forall (block delay (WatchCommand.name (cmd s)) (WatchCommand.args (cmd s)))
             blocks /\
      (List.length blocks <= List.length envs)%nat /\
      (forall evs s', loop delay envs s = Continue evs s' ->
                      List.length blocks = List.length envs).
Proof.
  induction envs as [|e envs IH]; intros s.
  - exists []. cbn. repeat split; auto.
  - cbn [loop]. pose proof (cycle_block delay e s) as Hb.
    destruct (cycle delay e s) as [evs1 s1|evs1 code text] eqn:E1.
    + destruct (IH s1) as (blocks & Hev & Hall & Hlen & Hfull).
      apply cycle_keeps in E1 as (Hn & Ha & _).
      rewrite Hn, Ha in Hall.
      exists (evs1 :: blocks). cbn [events] in Hb.
      destruct (loop delay envs s1) as [evs2 s2|evs2 code text] eqn:E2;
        cbn [events List.concat List.length] in *; rewrite Hev.
      * repeat split; [constructor; assumption | lia |].
        intros evs s' _. now rewrite (Hfull _ _ eq_refl).
      * repeat split; [constructor; assumption | lia | discriminate].
    + exists [evs1]. cbn [events List.concat List.length] in *.
      rewrite app_nil_r.
      repeat split; [constructor; [exact Hb | constructor] | lia | discriminate].
Qed.

Lemma cycle_frame_run (delay : Z) (e : Env) (s s' : State) (evs : list event) :
  cycle delay e s = Continue evs s' ->
  existsb isFrame evs = existsb isRun evs && (WatchCommand.hasChanged (cmd s') || first s).
Proof.
  unfold cycle.
  destruct (WatchPaths.update (world e) (paths s)) as [p'|]; [|discriminate].
  destruct (WatchPaths.hasChanged p'); cbn [negb].
  - destruct (report _ _) as [scr|]; [|discriminate].
    intros H. injection H as <- <-. cbn [cmd].
    now destruct (_ || _).
  - intros H. now injection H as <- <-.
Qed.

(** X12. While the loop lives, frames are only drawn when the
    command has been executed, and from the start ([first] set) a frame
    has been drawn as soon as the command has been executed. *)
Theorem first_execution_is_drawn (delay : Z) (envs : list Env) :
  forall (s s' : State) (evs : list event),
    loop delay envs s = Continue evs s' ->
    (existsb isFrame evs = true -> existsb isRun evs = true) /\
    (first s = true -> existsb isFrame evs = existsb isRun evs).
Proof.
  induction envs as [|e envs IH]; intros s s' evs H; cbn in H.
  - injection H as <- _. cbn. split; [discriminate | reflexivity].
  - destruct (cycle delay e s) as [evs1 s1|] eqn:E1; [|discriminate].
    destruct (loop delay envs s1) as [evs2 s2|] eqn:E2; [|discriminate].
    injection H as <- _.
    pose proof (cycle_frame_run _ _ _ _ _ E1) as Hfr.
    pose proof (cycle_first _ _ _ _ _ E1) as Hfirst.
    destruct (IH _ _ _ E2) as [IH1 IH2].
    rewrite !existsb_app, Hfr.
    destruct (existsb isRun evs1); cbn [andb orb].
    + split; [reflexivity|]. intros Hs. rewrite Hs, orb_true_r. reflexivity.
    + split; [exact IH1|]. intros Hs. apply IH2.
      rewrite Hfirst, Hs. reflexivity.
Qed.
End LoopShape.

(** ** The ways out of the program *)
Section ExitFacts.
Context {lib : GoLib}.






End ExitFacts.

(** ** The two screens *)

(** X14. The two screens print the same frame (name, time, status in
    brackets when not empty, blank line, output); the vt100 screen only
    puts clear-screen and bold before the title and reset after the
    name. *)
Theorem backends_differ_by_escapes
    (name status timestamp : string) (b : list byte) :
  exists rest,
    rest = " [" ++ timestamp
           ++ (if isEmpty status then EmptyString else " " ++ status)
           ++ "]" ++ newline ++ newline ++ string_of_list_byte b /\
    Screen.Write (Screen.mk Screen.plainScreen name status) timestamp b
      = "WATCH " ++ name ++ rest /\
    Screen.Write (Screen.mk Screen.vt100Screen name status) timestamp b
      = Screen.CLEAR ++ Screen.BOLD ++ "WATCH " ++ name ++ Screen.RESET ++ rest.
Proof.
  eexists. split; [reflexivity|].
  unfold Screen.Write. cbn [Screen.backend Screen.name Screen.status].
  destruct (isEmpty status); split; repeat rewrite ?str_app_assoc, ?str_app_nil_r;
    cbn [append]; reflexivity.
Qed.

(** ** The timeout in words *)
Module DurationFacts.
Import Duration.

Lemma fmtFracLoop_zeros (k : nat) :
  forall (n : Z) (buf : string),
    fmtFracLoop k (n * 10 ^ Z.of_nat k) false buf = (buf, n, false).
Proof.
  induction k as [|k IH]; intros n buf.
  - cbn. now rewrite Z.mul_1_r.
  - cbn [fmtFracLoop]. rewrite Nat2Z.inj_succ, Z.pow_succ_r by lia.
    replace (n * (10 * 10 ^ Z.of_nat k)) with (n * 10 ^ Z.of_nat k * 10) by lia.
    rewrite Z.mod_mul, Z.div_mul by lia. cbn. apply IH.
Qed.

Lemma ofSeconds_small (n : Z) :
  0 <= n <= 9223372036 -> ofSeconds n = n * 10 ^ 9.
Proof.
  intros H. unfold ofSeconds. change Second with (10 ^ 9).
  rewrite Z.mod_small by lia.
  destruct (Z.ltb_spec (n * 10 ^ 9) (2 ^ 63)); lia.
Qed.

(** X16. For a timeout flag of 0 to 9223372036 seconds the duration
    does not wrap and is printed in whole hours, minutes and seconds,
    without a fraction. *)
Theorem timeout_text (n : Z) :
  0 <= n <= 9223372036 -> String_ (ofSeconds n) = hms n.
Proof.
  intros H. rewrite ofSeconds_small by exact H.
  unfold String_, hms.
  rewrite Z.abs_eq by lia.
  destruct (Z.ltb_spec (n * 10 ^ 9) 0) as [Hneg|_]; [lia|].
  change Second with (10 ^ 9).
  destruct (Z.ltb_spec (n * 10 ^ 9) (10 ^ 9)) as [Hlt|Hge].
  - assert (n = 0) by lia. subst n. reflexivity.
  - unfold fmtFrac. change 9%nat with (Z.to_nat 9).
    change (10 ^ 9) with (10 ^ Z.of_nat (Z.to_nat 9)).
    rewrite fmtFracLoop_zeros. unfold fmtInt.
    assert (n / 60 / 60 <= n / 60).
    { pose proof (Z.div_pos n 60). apply Z.div_le_upper_bound; lia. }
    rewrite Z.div_div in * by lia. change (60 * 60) with 3600 in *.
    destruct (Z.ltb_spec 0 (n / 60)); destruct (Z.ltb_spec 0 (n / 3600));
      try lia; cbn [append]; rewrite ?str_app_assoc; reflexivity.
Qed.
End DurationFacts.

(** ** The walk reads every regular file once *)
Section WalkCount.
Context {lib : GoLib}.
Import WatchPaths.



End WalkCount.

(** ** The theorems at work on the inputs of [Demo] *)

#[local] Existing Instance plainLib.

Lemma execution_error_handling_witness :
  executed (cycle Demo.second (Demo.env Demo.world Demo.exit3) Demo.state0) = true /\
  (exists evs s',
      cycle Demo.second (Demo.env Demo.world Demo.exit3) Demo.state0
        = Continue evs s' /\
      Screen.status (screen s') = "exit code 3") /\
  executed (cycle Demo.second (Demo.env Demo.world Demo.late) Demo.state0) = true /\
  (exists evs,
      cycle Demo.second (Demo.env Demo.world Demo.late) Demo.state0
        = Stop evs 1 ("ERROR: timeout after 5s" ++ newline)).
Proof.
  split; [reflexivity|]. split.
  - exact (execution_error_handling
             Demo.second (Demo.env Demo.world Demo.exit3) Demo.state0 eq_refl).
  - split; [reflexivity|].
    exact (execution_error_handling
             Demo.second (Demo.env Demo.world Demo.late) Demo.state0 eq_refl).
Defined.

Lemma run_outcome_precedence_witness :
  (deadlinePassed Demo.lateExit3 = true /\
   WatchCommand.err (WatchCommand.run (cmd Demo.state0) Demo.lateExit3)
     = Some DeadlineExceeded) /\
  (deadlinePassed Demo.exit3 = false /\
   WatchCommand.err (WatchCommand.run (cmd Demo.state0) Demo.exit3)
     = Some (ExitError 3)).
Proof.
  split; (split; [reflexivity|]).
  - exact (proj1 (run_outcome_precedence (cmd Demo.state0) Demo.lateExit3) eq_refl).
  - exact (proj1 (proj2 (run_outcome_precedence (cmd Demo.state0) Demo.exit3)) eq_refl).
Defined.

Lemma unchanged_paths_skip_cycle_witness :
  paths (Demo.withPaths (Some Demo.watched) Demo.state0) = Some Demo.watched /\
  WatchPaths.update Demo.world (Some Demo.watched) = Ok (Some Demo.settled) /\
  WatchPaths.hasChanged (Some Demo.settled) = false /\
  executed (cycle Demo.second (Demo.env Demo.world Demo.hello)
              (Demo.withPaths (Some Demo.watched) Demo.state0)) = false /\
  drawn (cycle Demo.second (Demo.env Demo.world Demo.hello)
           (Demo.withPaths (Some Demo.watched) Demo.state0)) = false.
Proof.
  assert (Hu : WatchPaths.update Demo.world (Some Demo.watched)
               = Ok (Some Demo.settled)) by (vm_compute; reflexivity).
  split; [reflexivity|]. split; [exact Hu|]. split; [reflexivity|].
  destruct (unchanged_paths_skip_cycle
              Demo.second (Demo.env Demo.world Demo.hello)
              (Demo.withPaths (Some Demo.watched) Demo.state0)
              Demo.watched (Some Demo.settled) eq_refl Hu eq_refl)
    as (_ & Hrun & Hframe & _).
  split; [exact Hrun | exact Hframe].
Defined.

Lemma redraw_rule_witness :
  first Demo.state0 = true /\
  loop Demo.second [Demo.env Demo.world Demo.hello] Demo.state0
    = Continue [Sleep Demo.second; Run "echo" ["hello"];
                Frame (Screen.Write (screen Demo.state1) "12:00:00" (Demo.bytes "hello"))]
               Demo.state1 /\
  cycle Demo.second (Demo.env Demo.world Demo.hello) Demo.state1
    = Continue [Sleep Demo.second; Run "echo" ["hello"]] Demo.state2 /\
  executed (cycle Demo.second (Demo.env Demo.world Demo.hello) Demo.state1) = true /\
  drawn (cycle Demo.second (Demo.env Demo.world Demo.hello) Demo.state1) = false.
Proof.
  assert (Hl : loop Demo.second [Demo.env Demo.world Demo.hello] Demo.state0
    = Continue [Sleep Demo.second; Run "echo" ["hello"];
                Frame (Screen.Write (screen Demo.state1) "12:00:00" (Demo.bytes "hello"))]
               Demo.state1) by (vm_compute; reflexivity).
  assert (Hc : cycle Demo.second (Demo.env Demo.world Demo.hello) Demo.state1
    = Continue [Sleep Demo.second; Run "echo" ["hello"]] Demo.state2)
    by (vm_compute; reflexivity).
  split; [reflexivity|]. split; [exact Hl|]. split; [exact Hc|].
  split; [vm_compute; reflexivity|].
  destruct (redraw_rule Demo.second [Demo.env Demo.world Demo.hello] Demo.state0
              _ _ _ _ _ eq_refl Hl Hc eq_refl)
    as (_ & Hdrawn & _).
  exact Hdrawn.
Defined.

Lemma redraw_rule_counterexample :
  ~ (executed (cycle Demo.second (Demo.env Demo.world Demo.late) Demo.state0) = true ->
     (drawn (cycle Demo.second (Demo.env Demo.world Demo.late) Demo.state0) = true
      <->
      WatchCommand.hasChanged (WatchCommand.run (cmd Demo.state0) Demo.late) = true
      \/ first Demo.state0 = true)).
Proof.
  intros H. specialize (H eq_refl). destruct H as [_ H].
  specialize (H (or_intror eq_refl)). discriminate H.
Qed.

Lemma absent_watcher_always_changed_witness :
  paths Demo.state0 = None /\
  executed (cycle Demo.second (Demo.env Demo.world Demo.hello) Demo.state0) = true.
Proof.
  split; [reflexivity|].
  destruct absent_watcher_always_changed as (_ & _ & _ & H & _).
  exact (proj1 (H Demo.second (Demo.env Demo.world Demo.hello) Demo.state0 eq_refl)).
Defined.

Lemma empty_watch_set_first_cycle_witness :
  start (Demo.flags "data") Demo.emptyDirs
    = Ok (EmptyString, Demo.withPaths (Some Demo.fresh) Demo.state0) /\
  WatchPaths.files Demo.fresh = [] /\
  (forall dir, In dir (WatchPaths.dirs Demo.fresh) ->
     bare (Tree Demo.emptyDirs dir) = true) /\
  exists wp',
    WatchPaths.update Demo.emptyDirs (Some Demo.fresh) = Ok (Some wp') /\
    WatchPaths.hasChanged (Some wp') = false /\
    executed (cycle Demo.second (Demo.env Demo.emptyDirs Demo.hello)
                (Demo.withPaths (Some Demo.fresh) Demo.state0)) = false.
Proof.
  assert (Hs : start (Demo.flags "data") Demo.emptyDirs
    = Ok (EmptyString, Demo.withPaths (Some Demo.fresh) Demo.state0))
    by (vm_compute; reflexivity).
  assert (Hd : forall dir, In dir (WatchPaths.dirs Demo.fresh) ->
                 bare (Tree Demo.emptyDirs dir) = true) by (intros dir _; reflexivity).
  split; [exact Hs|]. split; [reflexivity|]. split; [exact Hd|].
  destruct (empty_watch_set_first_cycle
              (Demo.flags "data") Demo.emptyDirs EmptyString
              (Demo.withPaths (Some Demo.fresh) Demo.state0) Demo.fresh
              Demo.second (Demo.env Demo.emptyDirs Demo.hello)
              Hs eq_refl eq_refl Hd)
    as (wp' & Hu & _ & Hc & _ & Hx).
  exists wp'. auto.
Defined.

Lemma first_run_changed_witness :
  WatchCommand.buf (cmd Demo.state0) = [] /\
  written Demo.hello <> [] /\
  Z.of_nat (List.length (written Demo.hello)) <= 256 /\
  WatchCommand.hasChanged (WatchCommand.run (cmd Demo.state0) Demo.hello) = true.
Proof.
  assert (Hne : written Demo.hello <> []) by (cbv; discriminate).
  assert (Hlen : Z.of_nat (List.length (written Demo.hello)) <= 256)
    by (vm_compute; discriminate).
  split; [reflexivity|]. split; [exact Hne|]. split; [exact Hlen|].
  exact (proj2 (proj2 (first_run_changed (cmd Demo.state0) Demo.hello eq_refl))
           Hne Hlen).
Defined.

Lemma first_run_changed_counterexample :
  ~ (WatchCommand.buf (cmd Demo.state0) = [] ->
     written Demo.zeros <> [] ->
     WatchCommand.hasChanged (WatchCommand.run (cmd Demo.state0) Demo.zeros) = true).
Proof.
  intros H.
  assert (Hne : written Demo.zeros <> []).
  { unfold Demo.zeros, written.
    destruct (Z.to_nat 65521) eqn:E; [lia | discriminate]. }
  specialize (H eq_refl Hne).
  vm_compute in H. discriminate H.
Qed.


Lemma blank_path_string_never_runs_witness :
  isEmpty "  " = false /\ allSpace "  " = true /\
  WatchPaths.NewWatchPaths Demo.world "  "
    = Ok (Some (WatchPaths.mk [] [] 0 Adler32.New)) /\
  executed (loop Demo.second
              [Demo.env Demo.world Demo.hello; Demo.env Demo.world Demo.hello]
              (Demo.withPaths (Some (WatchPaths.mk [] [] 0 Adler32.New)) Demo.state0))
    = false.
Proof.
  split; [reflexivity|]. split; [reflexivity|].
  destruct (blank_path_string_never_runs Demo.world "  " eq_refl eq_refl)
    as (Hnew & _ & Hloop).
  split; [exact Hnew|].
  destruct (Hloop Demo.second
              [Demo.env Demo.world Demo.hello; Demo.env Demo.world Demo.hello]
              (Demo.withPaths (Some (WatchPaths.mk [] [] 0 Adler32.New)) Demo.state0)
              eq_refl) as (s' & _ & Hx).
  exact Hx.
Defined.

(** ** These theorems at work on the inputs of [Demo] *)



Lemma same_output_no_redraw_witness :
  cycle Demo.second (Demo.env Demo.world Demo.hello) Demo.state0
    = Continue [Sleep Demo.second; Run "echo" ["hello"];
                Frame (Screen.Write (screen Demo.state1) "12:00:00"
                                    (Demo.bytes "hello"))]
               Demo.state1 /\
  executed (cycle Demo.second (Demo.env Demo.world Demo.hello) Demo.state0) = true /\
  written (exec (Demo.env Demo.emptyDirs Demo.hello))
    = written (exec (Demo.env Demo.world Demo.hello)) /\
  drawn (cycle Demo.second (Demo.env Demo.emptyDirs Demo.hello) Demo.state1) = false.
Proof.
  assert (Hc : cycle Demo.second (Demo.env Demo.world Demo.hello) Demo.state0
    = Continue [Sleep Demo.second; Run "echo" ["hello"];
                Frame (Screen.Write (screen Demo.state1) "12:00:00"
                                    (Demo.bytes "hello"))]
               Demo.state1) by (vm_compute; reflexivity).
  split; [exact Hc|]. split; [reflexivity|]. split; [reflexivity|].
  exact (proj2 same_output_no_redraw Demo.second
           (Demo.env Demo.world Demo.hello) (Demo.env Demo.emptyDirs Demo.hello)
           Demo.state0 _ Demo.state1 Hc eq_refl eq_refl).
Defined.

Lemma small_edits_are_seen_witness :
  "h"%byte <> "j"%byte /\
  written Demo.hello = ([] ++ "h"%byte :: Demo.bytes "ello")%list /\
  written Demo.jello = ([] ++ "j"%byte :: Demo.bytes "ello")%list /\
  WatchCommand.hasChanged
    (WatchCommand.run (WatchCommand.run (cmd Demo.state0) Demo.hello) Demo.jello)
    = true.
Proof.
  assert (Hne : "h"%byte <> "j"%byte) by discriminate.
  split; [exact Hne|]. split; [reflexivity|]. split; [reflexivity|].
  exact (small_edits_are_seen (cmd Demo.state0) Demo.hello Demo.jello
           [] (Demo.bytes "ello") "h"%byte "j"%byte Hne
           (or_introl (conj eq_refl eq_refl))).
Defined.

Lemma unchanged_files_no_change_witness :
  WatchPaths.update Demo.world (Some Demo.watched) = Ok (Some Demo.settled) /\
  world (Demo.env Demo.world Demo.hello) = Demo.world /\
  paths (Demo.withPaths (Some Demo.settled) Demo.state0) = Some Demo.settled /\
  exists p2,
    WatchPaths.update Demo.world (Some Demo.settled) = Ok p2 /\
    WatchPaths.hasChanged p2 = false.
Proof.
  assert (Hu : WatchPaths.update Demo.world (Some Demo.watched)
               = Ok (Some Demo.settled)) by (vm_compute; reflexivity).
  split; [exact Hu|]. split; [reflexivity|]. split; [reflexivity|].
  destruct (unchanged_files_no_change Demo.world Demo.watched (Some Demo.settled)
              Demo.second (Demo.env Demo.world Demo.hello)
              (Demo.withPaths (Some Demo.settled) Demo.state0)
              Hu eq_refl eq_refl) as (p2 & H2 & Hc & _).
  exists p2. split; assumption.
Defined.

Lemma change_is_judged_on_concatenation_witness :
  WatchPaths.update Demo.split1 (Some Demo.pair)
    = Ok (Some (WatchPaths.mk ["a"; "b"] [] 1 38600999)) /\
  WatchPaths.update Demo.split2 (Some (WatchPaths.mk ["a"; "b"] [] 1 38600999))
    = Ok (Some (WatchPaths.mk ["a"; "b"] [] 38600999 38600999)) /\
  readAll Demo.split1 ["a"; "b"] [Demo.bytes "ab"; Demo.bytes "c"] /\
  readAll Demo.split2 ["a"; "b"] [Demo.bytes "a"; Demo.bytes "bc"] /\
  WatchPaths.hasChanged (Some (WatchPaths.mk ["a"; "b"] [] 38600999 38600999)) = false.
Proof.
  assert (H1 : WatchPaths.update Demo.split1 (Some Demo.pair)
    = Ok (Some (WatchPaths.mk ["a"; "b"] [] 1 38600999))) by (vm_compute; reflexivity).
  assert (H2 : WatchPaths.update Demo.split2
                 (Some (WatchPaths.mk ["a"; "b"] [] 1 38600999))
    = Ok (Some (WatchPaths.mk ["a"; "b"] [] 38600999 38600999)))
    by (vm_compute; reflexivity).
  assert (R1 : readAll Demo.split1 ["a"; "b"] [Demo.bytes "ab"; Demo.bytes "c"])
    by (repeat constructor).
  assert (R2 : readAll Demo.split2 ["a"; "b"] [Demo.bytes "a"; Demo.bytes "bc"])
    by (repeat constructor).
  split; [exact H1|]. split; [exact H2|]. split; [exact R1|]. split; [exact R2|].
  exact (proj2 (change_is_judged_on_concatenation
                  Demo.split1 Demo.split2 Demo.pair _ _ _ _ H1 H2 R1 R2) eq_refl).
Defined.




Lemma loop_keeps_configuration_witness :
  loop Demo.second [Demo.env Demo.world Demo.hello] Demo.state0
    = Continue [Sleep Demo.second; Run "echo" ["hello"];
                Frame (Screen.Write (screen Demo.state1) "12:00:00"
                                    (Demo.bytes "hello"))]
               Demo.state1 /\
  sameConfiguration Demo.state0 Demo.state1.
Proof.
  assert (Hl : loop Demo.second [Demo.env Demo.world Demo.hello] Demo.state0
    = Continue [Sleep Demo.second; Run "echo" ["hello"];
                Frame (Screen.Write (screen Demo.state1) "12:00:00"
                                    (Demo.bytes "hello"))]
               Demo.state1) by (vm_compute; reflexivity).
  split; [exact Hl|].
  exact (loop_keeps_configuration Demo.second _ _ _ _ Hl).
Defined.

Lemma trace_is_made_of_cycles_witness :
  exists blocks,
    events (loop Demo.second
              [Demo.env Demo.world Demo.hello; Demo.env Demo.world Demo.late]
              Demo.state0)
    = List.concat blocks /\
    Forall (block Demo.second "echo" ["hello"]) blocks /\
    (List.length blocks <= 2)%nat.
Proof.
  destruct (trace_is_made_of_cycles Demo.second
              [Demo.env Demo.world Demo.hello; Demo.env Demo.world Demo.late]
              Demo.state0) as (blocks & He & Hb & Hl & _).
  exists blocks. split; [exact He|]. split; [exact Hb | exact Hl].
Defined.

Lemma first_execution_is_drawn_witness :
  loop Demo.second [Demo.env Demo.world Demo.hello] Demo.state0
    = Continue [Sleep Demo.second; Run "echo" ["hello"];
                Frame (Screen.Write (screen Demo.state1) "12:00:00"
                                    (Demo.bytes "hello"))]
               Demo.state1 /\
  first Demo.state0 = true /\
  existsb isFrame
    [Sleep Demo.second; Run "echo" ["hello"];
     Frame (Screen.Write (screen Demo.state1) "12:00:00" (Demo.bytes "hello"))]
  = existsb isRun
    [Sleep Demo.second; Run "echo" ["hello"];
     Frame (Screen.Write (screen Demo.state1) "12:00:00" (Demo.bytes "hello"))].
Proof.
  assert (Hl : loop Demo.second [Demo.env Demo.world Demo.hello] Demo.state0
    = Continue [Sleep Demo.second; Run "echo" ["hello"];
                Frame (Screen.Write (screen Demo.state1) "12:00:00"
                                    (Demo.bytes "hello"))]
               Demo.state1) by (vm_compute; reflexivity).
  split; [exact Hl|]. split; [reflexivity|].
  exact (proj2 (first_execution_is_drawn Demo.second _ _ _ _ Hl) eq_refl).
Defined.


Lemma watched_content_first_cycle_witness :
  start (Demo.flags "notes") Demo.world
    = Ok (EmptyString,
          Demo.withPaths (Some (WatchPaths.mk ["notes"] [] 0 1)) Demo.state0) /\
  WatchPaths.update Demo.world (Some (WatchPaths.mk ["notes"] [] 0 1))
    = Ok (Some (WatchPaths.mk ["notes"] [] 1 177013412)) /\
  readAll Demo.world ["notes"] [Demo.bytes "<notes>"] /\
  List.concat [Demo.bytes "<notes>"] <> [] /\
  Z.of_nat (List.length (List.concat [Demo.bytes "<notes>"])) <= 256 /\
  executed (cycle Demo.second (Demo.env Demo.world Demo.hello)
              (Demo.withPaths (Some (WatchPaths.mk ["notes"] [] 0 1)) Demo.state0))
    = true.
Proof.
  assert (Hs : start (Demo.flags "notes") Demo.world
    = Ok (EmptyString,
          Demo.withPaths (Some (WatchPaths.mk ["notes"] [] 0 1)) Demo.state0))
    by (vm_compute; reflexivity).
  assert (Hu : WatchPaths.update Demo.world (Some (WatchPaths.mk ["notes"] [] 0 1))
    = Ok (Some (WatchPaths.mk ["notes"] [] 1 177013412)))
    by (vm_compute; reflexivity).
  assert (Hr : readAll Demo.world ["notes"] [Demo.bytes "<notes>"])
    by (repeat constructor).
  assert (Hne : List.concat [Demo.bytes "<notes>"] <> []) by (cbv; discriminate).
  assert (Hlen : Z.of_nat (List.length (List.concat [Demo.bytes "<notes>"])) <= 256)
    by (vm_compute; discriminate).
  split; [exact Hs|]. split; [exact Hu|]. split; [exact Hr|].
  split; [exact Hne|]. split; [exact Hlen|].
  exact (proj2 (watched_content_first_cycle
                  (Demo.flags "notes") Demo.world EmptyString _ _
                  Demo.second (Demo.env Demo.world Demo.hello) _ _
                  Hs eq_refl Hu Hr Hne Hlen)).
Defined.

Lemma timeout_text_witness :
  0 <= 3661 <= 9223372036 /\
  Duration.String_ (Duration.ofSeconds 3661) = "1h1m1s".
Proof.
  assert (H : 0 <= 3661 <= 9223372036) by lia.
  split; [exact H|]. exact (DurationFacts.timeout_text 3661 H).
Defined.

